(** * A conversational relay: the chat endpoint, its stream reassembly and
      its persisted history (src/main.py)

    The development follows the Python module top to bottom.

    - [Text]       Python [str] and [bytes]: code points, [strip], utf-8.
    - [Py]         the Python values the program handles (what [json.loads]
                   builds), exceptions, and the few object operations the
                   module uses ([.get], subscription, truthiness, [+=]).
    - [Json]       [json.loads] and [json.dump(..., ensure_ascii=False,
                   indent=2)].
    - [Main]       the module itself: [reset_history], [save_history_to_file],
                   [load_history_from_file], [chat], [stream_generator],
                   [reset], over an explicit world (the global list and the
                   file chatlog.json), the file taking whatever text is
                   written to it.
    - [Spec]       the vocabulary of the specification: turns, the
                   invariant of a conversation, the reconstruction of a
                   reply from chunks, reachable states.
    - [Storage]    the file behind its utf-8 codec: the chunks [json.dump]
                   writes one by one, the UnicodeEncodeError of a chunk with
                   a lone surrogate and the cut file it leaves, and
                   [save_history_to_file], [stream_generator], [chat] and
                   [reset] over that write.

    The theorems follow: the buffered path, the import of the module, the
    streamed path, the invariant, and the round trip through the file; then
    reset and restart, a call that commits nothing, the relay loop chunk by
    chunk, what reaches the caller, and last the commits over the file with
    its codec: what is written, what a restart finds, which failures come
    back as data.

    Modelling conventions.  A [str] is the list of its code points.  The file
    chatlog.json is held as the text that [f.read()] returns ([None] when the
    file does not exist).  In [Main] a write always succeeds; [Storage] adds
    the one fault of a write that the text itself decides, a chunk that
    utf-8 cannot encode, and agrees with [Main] on every history whose text
    utf-8 encodes ([StorageFacts.save_storable]).  A medium that refuses the
    write is outside the model.  The HTTP exchange with the model backend is
    an input of each operation: the status and text of the buffered response
    (or a timeout), the list of byte chunks of the streamed one;
    [response.json()] is [json.loads] of the text.  The interpreter is
    ideal: no limit on the nesting depth of a JSON text nor on the digits of
    an integer.  Exceptions that leave a function keep the mutations made
    before them, as in Python.  The [print] calls are left out. *)

From Stdlib Require Import List ZArith NArith Bool Lia.
From Stdlib Require Import Strings.String Strings.Ascii Strings.Byte.
From Stdlib Require Import Numbers.DecimalString Floats.SpecFloat.
Import ListNotations.

Set Implicit Arguments.

(* ================================================================== *)
(** ** Text *)

Module Text.

Local Open Scope N_scope.

(** A character is its code point; a [str] is the list of its characters,
    a [bytes] object the list of its bytes. *)
#[warnings="-notation-for-abbreviation"]
Notation char := N (only parsing).
#[warnings="-notation-for-abbreviation"]
Notation str := (list N) (only parsing).
#[warnings="-notation-for-abbreviation"]
Notation bytes := (list byte) (only parsing).

(** A literal of the source, as a [str]. *)
Definition u (s : string) : str := map N_of_ascii (list_ascii_of_string s).

(** A bytes literal of the source. *)
Definition b (s : string) : bytes := list_byte_of_string s.

(** Literals that contain double quotes (JSON texts of the tests and of the
    specification) are written with an apostrophe for each double quote. *)
Definition q (s : string) : str :=
  map (fun c => if c =? 39 then 34 else c) (u s).

Definition qb (s : string) : bytes :=
  map (fun x => match x with x27 => x22 | _ => x end) (b s).

Fixpoint str_eqb (x y : str) : bool :=
  match x, y with
  | [], [] => true
  | c :: x', d :: y' => (c =? d) && str_eqb x' y'
  | _, _ => false
  end.

Definition between (lo c hi : N) : bool := (lo <=? c) && (c <=? hi).

(** [str.isspace] on one character (the code points [str.strip()] removes). *)
Definition isspace (c : char) : bool :=
  between 9 c 13 || between 28 c 32 || (c =? 133) || (c =? 160)
  || (c =? 5760) || between 8192 c 8202 || (c =? 8232) || (c =? 8233)
  || (c =? 8239) || (c =? 8287) || (c =? 12288).

Fixpoint lstrip (s : str) : str :=
  match s with
  | c :: s' => if isspace c then lstrip s' else s
  | [] => []
  end.

Definition rstrip (s : str) : str := rev (lstrip (rev s)).

(** [s.strip()] *)
Definition strip (s : str) : str := rstrip (lstrip s).

(** Truth value of a [str] or [bytes] object: non-empty. *)
Definition nonempty {A} (s : list A) : bool :=
  match s with [] => false | _ => true end.

(** A continuation byte of utf-8. *)
Definition cont (n : N) : bool := between 128 n 191.

(** [chunk.decode("utf-8")]: [None] stands for UnicodeDecodeError.  The
    strict codec: shortest forms only, no surrogates, nothing above
    U+10FFFF. *)
Fixpoint decode_utf8 (bs : bytes) : option str :=
  match bs with
  | [] => Some []
  | b0 :: r0 =>
    let n0 := Byte.to_N b0 in
    if n0 <? 128 then option_map (cons n0) (decode_utf8 r0)
    else
      match r0 with
      | [] => None
      | b1 :: r1 =>
        let n1 := Byte.to_N b1 in
        if between 194 n0 223 then
          if cont n1
          then option_map (cons ((n0 - 192) * 64 + (n1 - 128))) (decode_utf8 r1)
          else None
        else
          match r1 with
          | [] => None
          | b2 :: r2 =>
            let n2 := Byte.to_N b2 in
            if between 224 n0 239 then
              if (if n0 =? 224 then between 160 n1 191
                  else if n0 =? 237 then between 128 n1 159
                  else cont n1) && cont n2
              then option_map
                     (cons ((n0 - 224) * 4096 + (n1 - 128) * 64 + (n2 - 128)))
                     (decode_utf8 r2)
              else None
            else
              match r2 with
              | [] => None
              | b3 :: r3 =>
                let n3 := Byte.to_N b3 in
                if between 240 n0 244 then
                  if (if n0 =? 240 then between 144 n1 191
                      else if n0 =? 244 then between 128 n1 143
                      else cont n1) && cont n2 && cont n3
                  then option_map
                         (cons ((n0 - 240) * 262144 + (n1 - 128) * 4096
                                + (n2 - 128) * 64 + (n3 - 128)))
                         (decode_utf8 r3)
                  else None
                else None
              end
          end
      end
  end.

(** A character that [str.encode("utf-8")] accepts: a code point of
    Unicode that is no surrogate. *)
Definition scalar (c : char) : bool :=
  (c <? 55296) || ((57343 <? c) && (c <? 1114112)).

(** A text that can be written to a file opened with [encoding="utf-8"]. *)
Definition encodable (s : str) : bool := forallb scalar s.

End Text.

(* ================================================================== *)
(** ** Python values *)

Module Py.

Import Text.

(** The objects of the program: what [json.loads] returns and what the
    module builds itself.  A [dict] keeps its keys in insertion order; the
    keys are [str], as they are for every dict read from JSON. *)
#[warnings="-register-all"]
Inductive value : Type :=
| VNone
| VBool (b : bool)
| VInt (z : Z)
| VFloat (f : spec_float)
| VStr (s : str)
| VList (l : list value)
| VDict (d : list (str * value)).

(** The exceptions that can leave the functions of the module. *)
Inductive exn : Type :=
| JSONDecodeError
| TypeError
| AttributeError
| KeyError
| UnicodeDecodeError
| UnicodeEncodeError
| TimeoutException.

Definition exn_eqb (x y : exn) : bool :=
  match x, y with
  | JSONDecodeError, JSONDecodeError
  | TypeError, TypeError
  | AttributeError, AttributeError
  | KeyError, KeyError
  | UnicodeDecodeError, UnicodeDecodeError
  | UnicodeEncodeError, UnicodeEncodeError
  | TimeoutException, TimeoutException => true
  | _, _ => false
  end.

(** The outcome of an expression or a statement: a value, or a raised
    exception. *)
Inductive result (A : Type) : Type :=
| Return (a : A)
| Raise (e : exn).

Arguments Raise {A} e.

Definition bind {A B} (r : result A) (k : A -> result B) : result B :=
  match r with
  | Return a => k a
  | Raise e => Raise e
  end.

(** [try: body  except (e1, e2, ...): handler] *)
Definition try_except {A} (body : result A) (caught : list exn)
  (handler : result A) : result A :=
  match body with
  | Return a => Return a
  | Raise e => if existsb (exn_eqb e) caught then handler else Raise e
  end.

(** [d[k]] on the entries of a dict; [None] when the key is absent. *)
Fixpoint lookup (k : str) (d : list (str * value)) : option value :=
  match d with
  | [] => None
  | (k', v) :: d' => if str_eqb k k' then Some v else lookup k d'
  end.

(** [d[k] = v] on the entries of a dict: an existing key keeps its place. *)
Fixpoint store (k : str) (v : value) (d : list (str * value))
  : list (str * value) :=
  match d with
  | [] => [(k, v)]
  | (k', v') :: d' =>
    if str_eqb k k' then (k', v) :: d' else (k', v') :: store k v d'
  end.

(** [x.get(k, default)]: only a dict has the method. *)
Definition get (x : value) (k : str) (default : value) : result value :=
  match x with
  | VDict d => Return (match lookup k d with Some v => v | None => default end)
  | _ => Raise AttributeError
  end.

(** [x[k]] for a [str] key [k]. *)
Definition getitem (x : value) (k : str) : result value :=
  match x with
  | VDict d => match lookup k d with Some v => Return v | None => Raise KeyError end
  | _ => Raise TypeError
  end.

(** Truth value testing ([if x:]). *)
Definition truthy (x : value) : bool :=
  match x with
  | VNone => false
  | VBool b => b
  | VInt z => negb (z =? 0)%Z
  | VFloat (S754_zero _) => false
  | VFloat _ => true
  | VStr s => nonempty s
  | VList l => nonempty l
  | VDict d => nonempty d
  end.

(** [x == s] for a [str] literal [s]. *)
Definition eq_str (x : value) (s : str) : bool :=
  match x with
  | VStr t => str_eqb t s
  | _ => false
  end.

(** [acc += x] for a [str] accumulator [acc]. *)
Definition iadd_str (acc : str) (x : value) : result str :=
  match x with
  | VStr t => Return (acc ++ t)
  | _ => Raise TypeError
  end.

End Py.

(* ================================================================== *)
(** ** The json module of the standard library *)

Module Json.

Import Text Py.

Local Open Scope N_scope.

(** *** Decoding: [json.loads] *)

(** What a scanning function found at the head of the text. *)
Inductive scan (A : Type) : Type :=
| Scanned (a : A) (rest : str)
| Malformed          (* JSONDecodeError *)
| Exhausted.         (* the recursion budget of the model ran out *)

Arguments Malformed {A}.
Arguments Exhausted {A}.

(** What it means for a scan of [s] to have made progress: it stopped on an
    error, or it left strictly less text than it was given. *)
Definition progress {A} (x : scan A) (s : str) : Prop :=
  match x with
  | Scanned _ r => (List.length r < List.length s)%nat
  | Malformed => True
  | Exhausted => False
  end.

(** The whitespace of JSON: space, tab, line feed, carriage return. *)
Definition is_ws (c : char) : bool :=
  (c =? 32) || (c =? 9) || (c =? 10) || (c =? 13).

Fixpoint skip_ws (s : str) : str :=
  match s with
  | c :: s' => if is_ws c then skip_ws s' else s
  | [] => []
  end.

Definition is_digit (c : char) : bool := between 48 c 57.

Definition hex_digit (c : char) : option N :=
  if between 48 c 57 then Some (c - 48)
  else if between 97 c 102 then Some (c - 87)
  else if between 65 c 70 then Some (c - 55)
  else None.

Definition hex4 (h1 h2 h3 h4 : char) : option N :=
  match hex_digit h1, hex_digit h2, hex_digit h3, hex_digit h4 with
  | Some a, Some b, Some c, Some d => Some (((a * 16 + b) * 16 + c) * 16 + d)
  | _, _, _, _ => None
  end.

(** The character a backslash escape stands for ([\uXXXX] apart). *)
Definition unescape (e : char) : option char :=
  if e =? 34 then Some 34            (* quote *)
  else if e =? 92 then Some 92       (* backslash *)
  else if e =? 47 then Some 47       (* slash *)
  else if e =? 98 then Some 8        (* backspace *)
  else if e =? 102 then Some 12      (* form feed *)
  else if e =? 110 then Some 10      (* line feed *)
  else if e =? 114 then Some 13      (* carriage return *)
  else if e =? 116 then Some 9       (* tab *)
  else None.

Definition push (c : char) (r : option (str * str)) : option (str * str) :=
  match r with
  | Some (t, rest) => Some (c :: t, rest)
  | None => None
  end.

(** [scanstring], strict: the text after an opening quote, up to and
    including the closing one.  A \u escape of a high surrogate followed by
    one of a low surrogate is one character. *)
Fixpoint scanstring (s : str) : option (str * str) :=
  match s with
  | [] => None
  | c :: s1 =>
    if c =? 34 then Some ([], s1)
    else if c =? 92 then
      match s1 with
      | [] => None
      | e :: s2 =>
        if e =? 117 then
          match s2 with
          | h1 :: h2 :: h3 :: h4 :: s3 =>
            match hex4 h1 h2 h3 h4 with
            | None => None
            | Some hi =>
              if between 55296 hi 56319 then
                match s3 with
                | b1 :: u1 :: g1 :: g2 :: g3 :: g4 :: s4 =>
                  if (b1 =? 92) && (u1 =? 117) then
                    match hex4 g1 g2 g3 g4 with
                    | None => None
                    | Some lo =>
                      if between 56320 lo 57343
                      then push (65536 + (hi - 55296) * 1024 + (lo - 56320))
                                (scanstring s4)
                      else push hi (scanstring s3)
                    end
                  else push hi (scanstring s3)
                | _ => push hi (scanstring s3)
                end
              else push hi (scanstring s3)
            end
          | _ => None
          end
        else
          match unescape e with
          | Some c' => push c' (scanstring s2)
          | None => None
          end
      end
    else if c <=? 31 then None
    else push c (scanstring s1)
  end.

(** A run of decimal digits: their number read in base ten, how many they
    are, and the text after them. *)
Fixpoint digits (s : str) (acc : Z) (n : nat) : Z * nat * str :=
  match s with
  | c :: s' =>
    if is_digit c then digits s' (10 * acc + Z.of_N (c - 48))%Z (S n)
    else (acc, n, s)
  | [] => (acc, n, s)
  end.

(** The float nearest to [m * 10 ^ e] ([float(numstr)]). *)
Definition float_of_decimal (neg : bool) (m e : Z) : spec_float :=
  match m with
  | Zpos p =>
    if (0 <=? e)%Z then binary_round 53 1024 neg (p * Z.to_pos (10 ^ e)) 0
    else
      let '(q, e', l) :=
        SFdiv_core_binary 53 1024 (Zpos p) 0 (10 ^ (- e))%Z 0 in
      binary_round_aux 53 1024 neg q e' l
  | _ => S754_zero neg
  end.

(** The integer part of a number: [0], or a non-zero digit and more digits. *)
Definition int_part (s : str) : option (Z * str) :=
  match s with
  | c :: s' =>
    if c =? 48 then Some (0%Z, s')
    else if between 49 c 57 then
      let '(z, _, r) := digits s 0%Z 0%nat in Some (z, r)
    else None
  | [] => None
  end.

(** The optional fraction: a point and at least one digit. *)
Definition frac_part (s : str) : option (Z * nat * str) :=
  match s with
  | p :: d :: _ =>
    if (p =? 46) && is_digit d then Some (digits (tl s) 0%Z 0%nat) else None
  | _ => None
  end.

(** The optional exponent: [e] or [E], an optional sign, at least one
    digit. *)
Definition exp_part (s : str) : option (Z * str) :=
  match s with
  | e :: s1 =>
    if (e =? 101) || (e =? 69) then
      let '(neg, s2) :=
        match s1 with
        | sg :: s2 =>
          if sg =? 45 then (true, s2)
          else if sg =? 43 then (false, s2) else (false, s1)
        | [] => (false, s1)
        end in
      match digits s2 0%Z 0%nat with
      | (_, O, _) => None
      | (z, _, r) => Some (if neg then (- z)%Z else z, r)
      end
    else None
  | [] => None
  end.

(** A number at the head of the text: an [int] when it has neither fraction
    nor exponent, a [float] otherwise. *)
Definition match_number (s : str) : scan value :=
  let '(neg, s0) :=
    match s with
    | c :: s' => if c =? 45 then (true, s') else (false, s)
    | [] => (false, s)
    end in
  match int_part s0 with
  | None => Malformed
  | Some (i, s1) =>
    match frac_part s1, (match frac_part s1 with
                         | Some (_, _, r) => exp_part r
                         | None => exp_part s1
                         end) with
    | None, None => Scanned (VInt (if neg then - i else i)%Z) s1
    | Some (f, n, s2), None =>
      Scanned (VFloat (float_of_decimal neg (i * 10 ^ Z.of_nat n + f)
                                        (- Z.of_nat n))) s2
    | Some (f, n, _), Some (x, s3) =>
      Scanned (VFloat (float_of_decimal neg (i * 10 ^ Z.of_nat n + f)
                                        (x - Z.of_nat n))) s3
    | None, Some (x, s3) =>
      Scanned (VFloat (float_of_decimal neg i x)) s3
    end
  end.

(** [s] starts with the characters of [w]; the text after them. *)
Fixpoint after (w s : str) : option str :=
  match w, s with
  | [], _ => Some s
  | a :: w', c :: s' => if a =? c then after w' s' else None
  | _ :: _, [] => None
  end.

(** [d] as [json.loads] builds a dict from the pairs of an object: a repeated
    key keeps its first place and takes its last value. *)
Definition dict_of_pairs (ps : list (str * value)) : list (str * value) :=
  fold_left (fun d kv => store (fst kv) (snd kv) d) ps [].

(** [scan_once]: one JSON term at the head of the text.  [items] and
    [members] are the loops of the array and of the object parser, entered
    at the start of a term and of a key. *)
Fixpoint scan_once (fuel : nat) (s : str) {struct fuel} : scan value :=
  match fuel with
  | O => Exhausted
  | S fuel' =>
    match s with
    | [] => Malformed
    | c :: s1 =>
      if c =? 34 then
        match scanstring s1 with
        | Some (t, r) => Scanned (VStr t) r
        | None => Malformed
        end
      else if c =? 123 then
        match skip_ws s1 with
        | c1 :: r1 =>
          if c1 =? 125 then Scanned (VDict []) r1
          else
            match members fuel' (skip_ws s1) with
            | Scanned ps r => Scanned (VDict (dict_of_pairs ps)) r
            | Malformed => Malformed
            | Exhausted => Exhausted
            end
        | [] => Malformed
        end
      else if c =? 91 then
        match skip_ws s1 with
        | c1 :: r1 =>
          if c1 =? 93 then Scanned (VList []) r1
          else
            match items fuel' (skip_ws s1) with
            | Scanned vs r => Scanned (VList vs) r
            | Malformed => Malformed
            | Exhausted => Exhausted
            end
        | [] => Malformed
        end
      else
        match after (u "null") s, after (u "true") s, after (u "false") s,
              after (u "NaN") s, after (u "Infinity") s,
              after (u "-Infinity") s with
        | Some r, _, _, _, _, _ => Scanned VNone r
        | _, Some r, _, _, _, _ => Scanned (VBool true) r
        | _, _, Some r, _, _, _ => Scanned (VBool false) r
        | _, _, _, Some r, _, _ => Scanned (VFloat S754_nan) r
        | _, _, _, _, Some r, _ => Scanned (VFloat (S754_infinity false)) r
        | _, _, _, _, _, Some r => Scanned (VFloat (S754_infinity true)) r
        | None, None, None, None, None, None => match_number s
        end
    end
  end

with items (fuel : nat) (s : str) {struct fuel} : scan (list value) :=
  match fuel with
  | O => Exhausted
  | S fuel' =>
    match scan_once fuel' s with
    | Scanned v r =>
      match skip_ws r with
      | c :: r1 =>
        if c =? 93 then Scanned [v] r1
        else if c =? 44 then
          match items fuel' (skip_ws r1) with
          | Scanned vs r2 => Scanned (v :: vs) r2
          | Malformed => Malformed
          | Exhausted => Exhausted
          end
        else Malformed
      | [] => Malformed
      end
    | Malformed => Malformed
    | Exhausted => Exhausted
    end
  end

with members (fuel : nat) (s : str) {struct fuel}
  : scan (list (str * value)) :=
  match fuel with
  | O => Exhausted
  | S fuel' =>
    match s with
    | q :: s1 =>
      if q =? 34 then
        match scanstring s1 with
        | Some (key, r) =>
          match skip_ws r with
          | colon :: r1 =>
            if colon =? 58 then
              match scan_once fuel' (skip_ws r1) with
              | Scanned v r2 =>
                match skip_ws r2 with
                | c :: r3 =>
                  if c =? 125 then Scanned [(key, v)] r3
                  else if c =? 44 then
                    match members fuel' (skip_ws r3) with
                    | Scanned ps r4 => Scanned ((key, v) :: ps) r4
                    | Malformed => Malformed
                    | Exhausted => Exhausted
                    end
                  else Malformed
                | [] => Malformed
                end
              | Malformed => Malformed
              | Exhausted => Exhausted
              end
            else Malformed
          | [] => Malformed
          end
        | None => Malformed
        end
      else Malformed
    | [] => Malformed
    end
  end.

(** [json.loads(s)] for a [str] [s]: a leading byte order mark is refused,
    whitespace around the one term is skipped, anything after it is an
    error. *)
Definition loads (s : str) : result value :=
  if match s with c :: _ => c =? 65279 | [] => false end
  then Raise JSONDecodeError
  else
    match scan_once (2 * List.length s + 1) (skip_ws s) with
    | Scanned v r =>
      match skip_ws r with
      | [] => Return v
      | _ :: _ => Raise JSONDecodeError
      end
    | Malformed => Raise JSONDecodeError
    | Exhausted => Raise JSONDecodeError
    end.

(** *** Encoding: [json.dump(obj, f, ensure_ascii=False, indent=2)] *)

Definition hex_char (d : N) : char := if d <? 10 then 48 + d else 87 + d.

(** One character of a string, escaped as [encode_basestring] does: quote
    and backslash, the five short escapes, any other control character as a
    four-digit escape, everything else as it is. *)
Definition escape_char (c : char) : str :=
  if c =? 34 then [92; 34]
  else if c =? 92 then [92; 92]
  else if c =? 10 then [92; 110]
  else if c =? 13 then [92; 114]
  else if c =? 9 then [92; 116]
  else if c =? 8 then [92; 98]
  else if c =? 12 then [92; 102]
  else if c <? 32 then [92; 117; 48; 48; hex_char (c / 16); hex_char (c mod 16)]
  else [c].

Definition encode_basestring (s : str) : str :=
  34 :: flat_map escape_char s ++ [34].

(** [int.__repr__] *)
Definition int_repr (z : Z) : str := u (NilZero.string_of_int (Z.to_int z)).

(** [v < 10 ^ k] for the positive fraction [v = num / den]. *)
Definition below_pow10 (num den k : Z) : bool :=
  (if 0 <=? k then num <? den * 10 ^ k else num * 10 ^ (- k) <? den)%Z.

(** The least [k] from [k0] on with [v < 10 ^ k]. *)
Fixpoint decimal_point (fuel : nat) (num den k0 : Z) : Z :=
  match fuel with
  | O => k0
  | S fuel' =>
    if below_pow10 num den k0 then k0
    else decimal_point fuel' num den (k0 + 1)%Z
  end.

(** The shortest decimal [D * 10 ^ (k - n)], of [n] digits, that reads back
    as the float [m * 2 ^ e]: the digits [D] and the exponent [k - n]. *)
Fixpoint shortest (fuel : nat) (m : positive) (e : Z) (num den k : Z) (n : Z)
  : Z * Z :=
  let x := (n - k)%Z in
  let '(wn, wd) :=
    (if 0 <=? x then (num * 10 ^ x, den) else (num, den * 10 ^ (- x)))%Z in
  let lo := (wn / wd)%Z in
  let hi := (lo + 1)%Z in
  let back D := match float_of_decimal false D (k - n) with
                | S754_finite _ m' e' => (Zpos m' =? Zpos m)%Z && (e' =? e)%Z
                | _ => false
                end in
  let near_lo := (2 * (wn - lo * wd) <=? wd)%Z in
  match fuel with
  | O => (if near_lo then lo else hi, (k - n)%Z)
  | S fuel' =>
    match back lo, back hi with
    | true, true => (if near_lo then lo else hi, (k - n)%Z)
    | true, false => (lo, (k - n)%Z)
    | false, true => (hi, (k - n)%Z)
    | false, false => shortest fuel' m e num den k (n + 1)%Z
    end
  end.

(** Trailing zeros of the digits go to the exponent. *)
Fixpoint strip_zeros (fuel : nat) (D x : Z) : Z * Z :=
  match fuel with
  | O => (D, x)
  | S fuel' =>
    if ((D mod 10 =? 0) && negb (D =? 0))%Z
    then strip_zeros fuel' (D / 10)%Z (x + 1)%Z
    else (D, x)
  end.

(** [float.__repr__] of a positive finite float: plain notation when the
    decimal point falls within the range -4 < decpt <= 16, exponent notation
    with a sign and at least two exponent digits otherwise. *)
Definition float_digits (m : positive) (e : Z) : str :=
  let '(num, den) :=
    (if 0 <=? e then (Zpos m * 2 ^ e, 1) else (Zpos m, 2 ^ (- e)))%Z in
  let k := decimal_point 700 num den (-330)%Z in
  let '(D0, x0) := shortest 17 m e num den k 1%Z in
  let '(D, x) := strip_zeros 20 D0 x0 in
  let ds := int_repr D in
  let nd := Z.of_nat (List.length ds) in
  let decpt := (nd + x)%Z in
  if ((decpt <=? -4) || (16 <? decpt))%Z then
    let ex := (decpt - 1)%Z in
    let xs := int_repr (Z.abs ex) in
    firstn 1 ds
    ++ (match skipn 1 ds with [] => [] | tl => 46 :: tl end)
    ++ [101; if (ex <? 0)%Z then 45 else 43]
    ++ (match xs with [_] => 48 :: xs | _ => xs end)
  else if (decpt <=? 0)%Z then
    [48; 46] ++ repeat 48 (Z.to_nat (- decpt)) ++ ds
  else if (nd <=? decpt)%Z then
    ds ++ repeat 48 (Z.to_nat (decpt - nd)) ++ [46; 48]
  else
    firstn (Z.to_nat decpt) ds ++ 46 :: skipn (Z.to_nat decpt) ds.

(** [floatstr]: the three special values by name, [float.__repr__]
    otherwise. *)
Definition floatstr (f : spec_float) : str :=
  match f with
  | S754_nan => u "NaN"
  | S754_infinity false => u "Infinity"
  | S754_infinity true => u "-Infinity"
  | S754_zero false => u "0.0"
  | S754_zero true => u "-0.0"
  | S754_finite false m e => float_digits m e
  | S754_finite true m e => 45 :: float_digits m e
  end.

(** A line break and the indentation of a nesting level, two spaces each. *)
Definition newline_indent (level : nat) : str := 10 :: repeat 32 (2 * level).

(** The text of [o] at a nesting level ([_iterencode] with [indent=2], item
    separator [,] and key separator [: ]). *)
Fixpoint encode (level : nat) (o : value) : str :=
  match o with
  | VStr s => encode_basestring s
  | VNone => u "null"
  | VBool true => u "true"
  | VBool false => u "false"
  | VInt z => int_repr z
  | VFloat f => floatstr f
  | VList [] => u "[]"
  | VList (v :: vs) =>
    [91] ++ newline_indent (S level) ++ encode (S level) v
    ++ flat_map (fun x => [44] ++ newline_indent (S level)
                          ++ encode (S level) x) vs
    ++ newline_indent level ++ [93]
  | VDict [] => u "{}"
  | VDict ((k, v) :: kvs) =>
    [123] ++ newline_indent (S level)
    ++ encode_basestring k ++ [58; 32] ++ encode (S level) v
    ++ flat_map (fun kx => [44] ++ newline_indent (S level)
                           ++ encode_basestring (fst kx) ++ [58; 32]
                           ++ encode (S level) (snd kx)) kvs
    ++ newline_indent level ++ [125]
  end.

(** The text [json.dump] writes to the file. *)
Definition dump (o : value) : str := encode 0 o.

(** The text a further element of the outermost list takes: the separator,
    the line break with its indentation, the element. *)
Definition item (x : value) : str := 44 :: newline_indent 1 ++ encode 1 x.

End Json.

(* ================================================================== *)
(** ** The module main.py *)

Module Main.

Import Text Py Json.

Local Open Scope Z_scope.

Notation "x <- e ;; k" := (bind e (fun x => k))
  (at level 61, e at next level, right associativity).

(** *** The world: the global list and the file *)

(** [conversation_history] is the module's global; [chatlog] is the text of
    chatlog.json ([None]: the file does not exist); [writes] counts the
    completed calls of [save_history_to_file]. *)
Record world : Type := World {
  conversation_history : list value;
  chatlog : option str;
  writes : nat
}.

(** A statement sequence of the module: it runs in a world, returns or
    raises, and leaves a world behind either way. *)
Definition prog (A : Type) : Type := world -> result A * world.

Definition ret {A} (a : A) : prog A := fun w => (Return a, w).

Definition raise {A} (e : exn) : prog A := fun w => (Raise e, w).

Definition lift {A} (r : result A) : prog A := fun w => (r, w).

Definition seq {A B} (c : prog A) (k : A -> prog B) : prog B :=
  fun w =>
    match c w with
    | (Return a, w') => k a w'
    | (Raise e, w') => (Raise e, w')
    end.

Notation "x <~ c ;; k" := (seq c (fun x => k))
  (at level 61, c at next level, right associativity).
Notation "c ;;; k" := (seq c (fun _ => k))
  (at level 61, right associativity).

(** [try: body  except (e1, ...): handler], around statements. *)
Definition try_except_prog {A} (body : prog A) (caught : list exn)
  (handler : prog A) : prog A :=
  fun w =>
    match body w with
    | (Raise e, w') =>
      if existsb (exn_eqb e) caught then handler w' else (Raise e, w')
    | done => done
    end.

(** [conversation_history = l] *)
Definition assign_history (l : list value) : prog unit :=
  fun w => (Return tt, World l (chatlog w) (writes w)).

(** [conversation_history.append(x)] *)
Definition append_history (x : value) : prog unit :=
  fun w => (Return tt, World (conversation_history w ++ [x]) (chatlog w) (writes w)).

(** The dict literal [{"role": role, "content": content}]. *)
Definition turn (role : str) (content : value) : value :=
  VDict [(u "role", VStr role); (u "content", content)].

Definition SYSTEM_PROMPT : str :=
  u "You are a friendly and helpful AI assistant.".

(** *** reset_history, save_history_to_file, load_history_from_file *)

Definition reset_history : prog unit :=
  assign_history [turn (u "system") (VStr SYSTEM_PROMPT)].

(** The write into a file that takes the text; [Storage] has the write
    through the codec of the file. *)
Definition save_history_to_file : prog unit :=
  fun w =>
    (Return tt,
     World (conversation_history w)
           (Some (dump (VList (conversation_history w))))
           (S (writes w))).

Definition load_history_from_file : prog unit :=
  fun w =>
    match chatlog w with
    | Some text =>
      try_except_prog
        (let content := strip text in
         if nonempty content then
           loaded_history <~ lift (loads content) ;;
           match loaded_history with
           | VList (first :: rest) =>
             role <~ lift (get first (u "role") VNone) ;;
             if eq_str role (u "system")
             then assign_history (first :: rest)
             else reset_history
           | _ => reset_history
           end
         else reset_history)
        [JSONDecodeError; TypeError]
        reset_history
        w
    | None => reset_history w
    end.

(** Import of the module: the global starts empty, then the history is
    loaded. *)
Definition startup (file : option str) : result unit * world :=
  load_history_from_file (World [] file 0).

(** *** The chat endpoint *)

(** The request body; [stream] is optional and may be null.  The fields
    [model] and [temperature] only travel to the backend. *)
Record ChatRequest : Type := {
  message : str;
  stream : option bool
}.

(** [if chat_request.stream:] *)
Definition wants_stream (r : ChatRequest) : bool :=
  match stream r with
  | Some s => s
  | None => false
  end.

(** What the backend does with the one request of a call: the result of
    [client.post] in buffered mode, the chunks of [response.aiter_bytes()]
    in streamed mode. *)
Inductive post_outcome : Type :=
| TimedOut
| Responded (status_code : Z) (text : str).

Record backend : Type := {
  post : post_outcome;
  aiter_bytes : list bytes
}.

(** What the history keeps of one decoded chunk: the body of the [try]
    statement, which updates the local [full_reply_content]. *)
Definition history_of_chunk (decoded_chunk full_reply_content : str)
  : result str :=
  try_except
    (let clean_chunk := strip decoded_chunk in
     if nonempty clean_chunk then
       json_line <- loads clean_chunk ;;
       msg <- get json_line (u "message") (VDict []) ;;
       content <- get msg (u "content") VNone ;;
       if truthy content then
         m <- getitem json_line (u "message") ;;
         c <- getitem m (u "content") ;;
         iadd_str full_reply_content c
       else Return full_reply_content
     else Return full_reply_content)
    [JSONDecodeError]
    (Return full_reply_content).

(** The [async for] loop of the generator: the strings yielded to the
    caller, in order, and the final [full_reply_content] or the exception
    that ended the loop. *)
Fixpoint relay (chunks : list bytes) (full_reply_content : str)
  : list str * result str :=
  match chunks with
  | [] => ([], Return full_reply_content)
  | chunk :: later =>
    if nonempty chunk then
      match decode_utf8 chunk with
      | None => ([], Raise UnicodeDecodeError)
      | Some decoded_chunk =>
        match history_of_chunk decoded_chunk full_reply_content with
        | Return full_reply_content' =>
          let '(yielded, r) := relay later full_reply_content' in
          (decoded_chunk :: yielded, r)
        | Raise e => ([decoded_chunk], Raise e)
        end
      end
    else relay later full_reply_content
  end.

(** A generator: run to its end it has yielded strings and returned or
    raised. *)
Definition generator : Type := world -> list str * result unit * world.

Definition stream_generator (chunks : list bytes) : generator :=
  fun w =>
    match relay chunks [] with
    | (yielded, Return full_reply_content) =>
      if nonempty full_reply_content then
        let '(r, w') :=
          (append_history (turn (u "assistant") (VStr full_reply_content)) ;;;
           save_history_to_file) w in
        (yielded, r, w')
      else (yielded, Return tt, w)
    | (yielded, Raise e) => (yielded, Raise e, w)
    end.

(** What an endpoint returns: a JSON body, or a streaming response around
    a generator. *)
Inductive response : Type :=
| JSONBody (body : value)
| StreamingResponse (content : generator).

Definition chat (chat_request : ChatRequest) (ollama : backend)
  : prog response :=
  append_history (turn (u "user") (VStr (message chat_request))) ;;;
  if wants_stream chat_request then
    ret (StreamingResponse (stream_generator (aiter_bytes ollama)))
  else
    match post ollama with
    | TimedOut => raise TimeoutException
    | Responded status_code text =>
      if status_code =? 200 then
        reply_data <~ lift (loads text) ;;
        m <~ lift (getitem reply_data (u "message")) ;;
        reply <~ lift (getitem m (u "content")) ;;
        append_history (turn (u "assistant") reply) ;;;
        save_history_to_file ;;;
        ret (JSONBody (VDict [(u "response", reply)]))
      else
        ret (JSONBody (VDict [(u "error",
               VStr (u "Error " ++ int_repr status_code ++ u ": " ++ text))]))
    end.

(** *** The history endpoints *)

Definition get_history : prog response :=
  fun w => (Return (JSONBody (VDict [(u "history",
                                      VList (conversation_history w))])), w).

Definition reset : prog response :=
  reset_history ;;;
  save_history_to_file ;;;
  ret (JSONBody (VDict [(u "message", VStr (u "Chat history has been reset."))])).

End Main.

(* ================================================================== *)
(** ** The vocabulary of the specification *)

Module Spec.

Import Text Py Json Main.

(** A Turn: a role out of three and a text. *)
Inductive role : Type := system | user | assistant.

Record Turn : Type := {
  turn_role : role;
  turn_content : str
}.

Definition role_name (r : role) : str :=
  match r with
  | system => u "system"
  | user => u "user"
  | assistant => u "assistant"
  end.

(** The dict that stands for a Turn in [conversation_history]. *)
Definition of_turn (t : Turn) : value :=
  turn (role_name (turn_role t)) (VStr (turn_content t)).

(** A well-formed Turn sequence: non-empty, its first Turn a system one. *)
Definition well_formed (c : list Turn) : Prop :=
  match c with
  | t :: _ => turn_role t = system
  | [] => False
  end.

(** The invariant of a Conversation, on the list the program holds: it is
    non-empty and its first element has role system. *)
Definition headed_by_system (h : list value) : bool :=
  match h with
  | first :: _ =>
    match get first (u "role") VNone with
    | Return r => eq_str r (u "system")
    | Raise _ => false
    end
  | [] => false
  end.

(** The initial Conversation. *)
Definition fresh : list value := [turn (u "system") (VStr SYSTEM_PROMPT)].

(** The content a chunk contributes: its trimmed text parsed as a JSON
    object that contains a non-empty message.content. *)
Definition fragment_of_text (text : str) : option str :=
  match loads (strip text) with
  | Return (VDict obj) =>
    match lookup (u "message") obj with
    | Some (VDict msg) =>
      match lookup (u "content") msg with
      | Some (VStr c) => if nonempty c then Some c else None
      | _ => None
      end
    | _ => None
    end
  | _ => None
  end.

Definition fragment (chunk : bytes) : option str :=
  match decode_utf8 chunk with
  | Some text => fragment_of_text text
  | None => None
  end.

(** The ordered concatenation of the contents of the chunks that have
    one. *)
Definition reconstruction (chunks : list bytes) : str :=
  flat_map (fun chunk => match fragment chunk with
                         | Some c => c
                         | None => []
                         end) chunks.

(** The world a call leaves when the assistant turn [reply] was committed
    after the user turn [msg]: both appended, the file written from the
    result. *)
Definition committed (w : world) (msg : str) (reply : value) : world :=
  let h := conversation_history w
           ++ [turn (u "user") (VStr msg); turn (u "assistant") reply] in
  World h (Some (dump (VList h))) (S (writes w)).

(** The world a call leaves when nothing followed the user turn. *)
Definition user_turn_only (w : world) (msg : str) : world :=
  World (conversation_history w ++ [turn (u "user") (VStr msg)])
        (chatlog w) (writes w).

(** The world a stream leaves when it committed the text [full]: one
    assistant turn appended, the file written from the result. *)
Definition stream_committed (w : world) (full : str) : world :=
  let h := conversation_history w ++ [turn (u "assistant") (VStr full)] in
  World h (Some (dump (VList h))) (S (writes w)).

(** A conversation with a quote, a backslash, a line break and a control
    character in its texts. *)
Definition sample_conversation : list Turn :=
  [ {| turn_role := system; turn_content := SYSTEM_PROMPT |};
    {| turn_role := user; turn_content := q "Say 'Hi'" ++ [10; 92; 1]%N |};
    {| turn_role := assistant; turn_content := [72; 105; 233; 128512]%N |} ].

(** The chunks of the streamed scenario of the tests. *)
Definition hello_world : list bytes :=
  [qb "{'message': {'role': 'assistant', 'content': 'Hello '}}" ++ [x0a];
   qb "{'message': {'role': 'assistant', 'content': 'World'}}" ++ [x0a]].

(** One line of the backend, its content the two-byte character e acute,
    cut by the transport between the two bytes. *)
Definition accented_line : bytes :=
  qb "{'message':{'content':'" ++ [xc3; xa9] ++ qb "'}}" ++ [x0a].

Definition accented_split : list bytes :=
  [firstn 24 accented_line; skipn 24 accented_line].

(** A chunk that is JSON but no object, before a regular one. *)
Definition list_then_line : list bytes :=
  [qb "[1]" ++ [x0a]; qb "{'message':{'content':'Hi'}}" ++ [x0a]].

(** What the caller has received of a stream: the strings the generator
    yielded. *)
Definition decoded (chunks : list bytes) : list str :=
  map (fun c => match decode_utf8 c with Some t => t | None => [] end) chunks.

(** A call came back with a JSON body, not with an exception. *)
Definition returned_as_data (o : result response * world) : Prop :=
  exists body, fst o = Return (JSONBody body).

(** The states of the program: after a successful import of the module,
    then after any call of the chat endpoint (whatever the backend does,
    whether the call returns or raises), any run of a stream generator, and
    any reset. *)
Inductive reachable : world -> Prop :=
| reach_startup file w :
    startup file = (Return tt, w) -> reachable w
| reach_chat request ollama w r w' :
    reachable w -> chat request ollama w = (r, w') -> reachable w'
| reach_stream chunks w yielded r w' :
    reachable w -> stream_generator chunks w = (yielded, r, w') ->
    reachable w'
| reach_reset w r w' :
    reachable w -> reset w = (r, w') -> reachable w'.

(** The file holds the text of the history in memory. *)
Definition in_sync (w : world) : Prop :=
  chatlog w = Some (dump (VList (conversation_history w))).

(** A chunk that is forwarded but does not parse on its own. *)
Definition unparsable (chunk : bytes) : Prop :=
  chunk <> []
  /\ exists text, decode_utf8 chunk = Some text
                  /\ loads (strip text) = Raise JSONDecodeError.

(** The first line of the streamed scenario, cut in two inside its JSON
    text (between ASCII characters). *)
Definition hello_halves : list bytes :=
  [firstn 20 (qb "{'message': {'role': 'assistant', 'content': 'Hello '}}");
   skipn 20 (qb "{'message': {'role': 'assistant', 'content': 'Hello '}}")
   ++ [x0a]].

End Spec.

(* ================================================================== *)
(** ** The file behind its utf-8 codec *)

Module Storage.

Import Text Py Json Main.

Local Open Scope N_scope.

(** The text of a value that [_iterencode] yields in one piece: a string,
    a constant or a number. *)
Definition atom (o : value) : option str :=
  match o with
  | VStr s => Some (encode_basestring s)
  | VNone => Some (u "null")
  | VBool true => Some (u "true")
  | VBool false => Some (u "false")
  | VInt z => Some (int_repr z)
  | VFloat f => Some (floatstr f)
  | VList _ | VDict _ => None
  end.

(** The chunks [_iterencode] yields for [o] at a nesting level, one call of
    [f.write] each.  In a list the pending text [buf] (the opening bracket
    or the separator, with the line break) is joined to an atom, and is
    yielded on its own before a list or a dict. *)
Fixpoint iterencode (level : nat) (o : value) : list str :=
  let element buf x :=
    match atom x with
    | Some text => [buf ++ text]
    | None => buf :: iterencode (S level) x
    end in
  match o with
  | VList [] => [u "[]"]
  | VList (v :: vs) =>
    element ([91] ++ newline_indent (S level)) v
    ++ flat_map (element ([44] ++ newline_indent (S level))) vs
    ++ [newline_indent level; [93]]
  | VDict [] => [u "{}"]
  | VDict ((k, v) :: kvs) =>
    [[123]; newline_indent (S level); encode_basestring k; [58; 32]]
    ++ iterencode (S level) v
    ++ flat_map (fun kx => [[44] ++ newline_indent (S level);
                            encode_basestring (fst kx); [58; 32]]
                           ++ iterencode (S level) (snd kx)) kvs
    ++ [newline_indent level; [125]]
  | _ => match atom o with Some text => [text] | None => [] end
  end.

(** [for chunk in iterable: fp.write(chunk)] on a file opened with
    [encoding="utf-8"]: each chunk is encoded and joins the text of the
    file; a chunk the codec refuses raises UnicodeEncodeError, and the file
    keeps what was written before it. *)
Fixpoint write_chunks (chunks : list str) (file : str) : result unit * str :=
  match chunks with
  | [] => (Return tt, file)
  | chunk :: later =>
    if encodable chunk then write_chunks later (file ++ chunk)
    else (Raise UnicodeEncodeError, file)
  end.

(** [save_history_to_file]: [open(..., "w")] empties the file, then
    [json.dump] writes chunk by chunk.  An exception leaves through the
    [with] statement, which closes the file on what it holds. *)
Definition save_history_to_file : prog unit :=
  fun w =>
    match write_chunks (iterencode 0 (VList (conversation_history w))) [] with
    | (Return _, text) =>
      (Return tt, World (conversation_history w) (Some text) (S (writes w)))
    | (Raise e, text) =>
      (Raise e, World (conversation_history w) (Some text) (writes w))
    end.

(** The generator, the chat endpoint and the reset endpoint, word for word
    as in [Main], over this [save_history_to_file]. *)
Definition stream_generator (chunks : list bytes) : generator :=
  fun w =>
    match relay chunks [] with
    | (yielded, Return full_reply_content) =>
      if nonempty full_reply_content then
        let '(r, w') :=
          (append_history (turn (u "assistant") (VStr full_reply_content)) ;;;
           save_history_to_file) w in
        (yielded, r, w')
      else (yielded, Return tt, w)
    | (yielded, Raise e) => (yielded, Raise e, w)
    end.

Definition chat (chat_request : ChatRequest) (ollama : backend)
  : prog response :=
  append_history (turn (u "user") (VStr (message chat_request))) ;;;
  if wants_stream chat_request then
    ret (StreamingResponse (stream_generator (aiter_bytes ollama)))
  else
    match post ollama with
    | TimedOut => raise TimeoutException
    | Responded status_code text =>
      if (status_code =? 200)%Z then
        reply_data <~ lift (loads text) ;;
        m <~ lift (getitem reply_data (u "message")) ;;
        reply <~ lift (getitem m (u "content")) ;;
        append_history (turn (u "assistant") reply) ;;;
        save_history_to_file ;;;
        ret (JSONBody (VDict [(u "response", reply)]))
      else
        ret (JSONBody (VDict [(u "error",
               VStr (u "Error " ++ int_repr status_code ++ u ": " ++ text))]))
    end.

Definition reset : prog response :=
  reset_history ;;;
  save_history_to_file ;;;
  ret (JSONBody (VDict [(u "message", VStr (u "Chat history has been reset."))])).

(** The history can be written: utf-8 encodes every chunk of its text. *)
Definition storable (h : list value) : bool :=
  forallb encodable (iterencode 0 (VList h)).

(** What a write of the history leaves in the file when the codec refuses a
    chunk: the chunks before it. *)
Definition cut (h : list value) : str :=
  snd (write_chunks (iterencode 0 (VList h)) []).

(** Every text of the turns is one utf-8 encodes. *)
Definition encodable_turns (c : list Spec.Turn) : Prop :=
  Forall (fun t => encodable (Spec.turn_content t) = true) c.

(** The reply is one that [print] puts out before the append, on a console
    that takes utf-8: a string that utf-8 encodes, or an object of another
    type, printed through its [repr]. *)
Definition printable (reply : value) : bool :=
  match reply with
  | VStr s => encodable s
  | _ => true
  end.

(** A line of the backend whose content is one half of a surrogate pair, as
    a JSON escape; a conversation that holds it as the reply. *)
Definition surrogate_line : list bytes :=
  [qb "{'message':{'content':'\ud83d'}}" ++ [x0a]].

Definition surrogate_conversation : list Spec.Turn :=
  [ {| Spec.turn_role := Spec.system; Spec.turn_content := SYSTEM_PROMPT |};
    {| Spec.turn_role := Spec.user; Spec.turn_content := u "Hi" |};
    {| Spec.turn_role := Spec.assistant; Spec.turn_content := [55357] |} ].

End Storage.

(* ================================================================== *)
(** ** The buffered path of the chat endpoint *)

Module Buffered.

Import Text Py Json Main Spec.

Local Open Scope Z_scope.


Lemma chat_not_200 (request : ChatRequest) (ollama : backend) (w : world)
  (s : Z) (body : str) :
  wants_stream request = false ->
  post ollama = Responded s body ->
  s <> 200 ->
  chat request ollama w
  = (Return (JSONBody (VDict [(u "error",
               VStr (u "Error " ++ int_repr s ++ u ": " ++ body))])),
     user_turn_only w (message request)).
Proof.
  intros Hs Hp Hne.
  unfold chat, seq, append_history, ret, user_turn_only.
  rewrite Hs, Hp.
  destruct (Z.eqb_spec s 200) as [E | _]; [contradiction | reflexivity].
Qed.

Lemma chat_timeout (request : ChatRequest) (ollama : backend) (w : world) :
  wants_stream request = false ->
  post ollama = TimedOut ->
  chat request ollama w
  = (Raise TimeoutException, user_turn_only w (message request)).
Proof.
  intros Hs Hp. unfold chat, seq, append_history, raise, user_turn_only.
  rewrite Hs, Hp. reflexivity.
Qed.

Lemma chat_missing_field (request : ChatRequest) (ollama : backend)
  (w : world) (text : str) (d : list (str * value)) :
  wants_stream request = false ->
  post ollama = Responded 200 text ->
  loads text = Return (VDict d) ->
  (lookup (u "message") d = None
   \/ exists m, lookup (u "message") d = Some (VDict m)
                /\ lookup (u "content") m = None) ->
  chat request ollama w
  = (Raise KeyError, user_turn_only w (message request)).
Proof.
  intros Hs Hp Hl Hm.
  unfold chat, seq, append_history, lift, user_turn_only.
  rewrite Hs, Hp. simpl Z.eqb. cbv iota.
  rewrite Hl. unfold getitem.
  destruct Hm as [Hm | [m [Hm Hc]]].
  - rewrite Hm. reflexivity.
  - rewrite Hm, Hc. reflexivity.
Qed.

(** C7.  The buffered scenario of the tests: from the single system turn, the
    request {message: Hi, stream: false} answered 200 with the body
    {message: {content: Hello there!}} returns {response: Hello there!}; the
    world it returns in already holds the three-turn history, third content
    Hello there!, and the file written from it (one write). *)
Theorem buffered_scenario (file : option str) (n : nat) (chunks : list bytes) :
  let h3 := [turn (u "system") (VStr SYSTEM_PROMPT);
             turn (u "user") (VStr (u "Hi"));
             turn (u "assistant") (VStr (u "Hello there!"))] in
  chat {| message := u "Hi"; stream := Some false |}
       {| post := Responded 200 (q "{'message':{'content':'Hello there!'}}");
          aiter_bytes := chunks |}
       (World fresh file n)
  = (Return (JSONBody (VDict [(u "response", VStr (u "Hello there!"))])),
     World h3 (Some (dump (VList h3))) (S n))
  /\ List.length h3 = 3%nat
  /\ option_map (fun t => get t (u "content") VNone) (nth_error h3 2)
     = Some (Return (VStr (u "Hello there!"))).
Proof.
  repeat split; vm_compute; reflexivity.
Qed.

(** C4.  Buffered mode, backend status [s] other than 200 with body [b]: the
    call returns the payload {error: Error s: b}, it does not raise; the
    history gains the user turn and nothing else, and the file is neither
    written nor changed; from the single system turn the history has
    length 2. *)
Theorem buffered_bad_status (request : ChatRequest) (ollama : backend)
  (w : world) (s : Z) (body : str) :
  wants_stream request = false ->
  post ollama = Responded s body ->
  s <> 200 ->
  chat request ollama w
  = (Return (JSONBody (VDict [(u "error",
               VStr (u "Error " ++ int_repr s ++ u ": " ++ body))])),
     World (conversation_history w
            ++ [turn (u "user") (VStr (message request))])
           (chatlog w) (writes w))
  /\ (conversation_history w = fresh ->
      List.length (conversation_history w
                   ++ [turn (u "user") (VStr (message request))]) = 2%nat).
Proof.
  intros Hs Hp Hne. split.
  - apply (chat_not_200 request ollama w Hs Hp Hne).
  - intros ->. reflexivity.
Qed.

Lemma buffered_bad_status_witness :
  chat {| message := u "Hi"; stream := Some false |}
       {| post := Responded 500 (u "oops"); aiter_bytes := [] |}
       (World fresh None 0)
  = (Return (JSONBody (VDict [(u "error", VStr (u "Error 500: oops"))])),
     World (fresh ++ [turn (u "user") (VStr (u "Hi"))]) None 0)
  /\ (fresh = fresh ->
      List.length (fresh ++ [turn (u "user") (VStr (u "Hi"))]) = 2%nat).
Proof.
  apply (buffered_bad_status
           {| message := u "Hi"; stream := Some false |}
           {| post := Responded 500 (u "oops"); aiter_bytes := [] |}
           (World fresh None 0) (s := 500) (body := u "oops")).
  - reflexivity.
  - reflexivity.
  - lia.
Defined.

End Buffered.

(* ================================================================== *)
(** ** Import of the module: load_history_from_file *)

Module Startup.

Import Text Py Json Main Spec.

Lemma startup_missing : startup None = (Return tt, World fresh None 0).
Proof. reflexivity. Qed.

Lemma startup_blank (text : str) :
  strip text = [] ->
  startup (Some text) = (Return tt, World fresh (Some text) 0).
Proof.
  intros H. unfold startup, load_history_from_file, try_except_prog. simpl.
  rewrite H. reflexivity.
Qed.

Lemma startup_unparsable (text : str) :
  loads (strip text) = Raise JSONDecodeError ->
  startup (Some text) = (Return tt, World fresh (Some text) 0).
Proof.
  intros H. unfold startup, load_history_from_file, try_except_prog. simpl.
  destruct (nonempty (strip text)); [| reflexivity].
  unfold seq, lift. rewrite H. reflexivity.
Qed.

Lemma startup_not_a_list (text : str) (v : value) :
  loads (strip text) = Return v ->
  (forall first rest, v <> VList (first :: rest)) ->
  startup (Some text) = (Return tt, World fresh (Some text) 0).
Proof.
  intros H Hv. unfold startup, load_history_from_file, try_except_prog. simpl.
  destruct (nonempty (strip text)); [| reflexivity].
  unfold seq, lift. rewrite H.
  destruct v as [| | | | | [| first rest] |]; try reflexivity.
  destruct (Hv first rest eq_refl).
Qed.

Lemma startup_other_role (text : str) (d : list (str * value))
  (rest : list value) :
  loads (strip text) = Return (VList (VDict d :: rest)) ->
  eq_str (match lookup (u "role") d with Some r => r | None => VNone end)
         (u "system") = false ->
  startup (Some text) = (Return tt, World fresh (Some text) 0).
Proof.
  intros H Hr. unfold startup, load_history_from_file, try_except_prog. simpl.
  destruct (nonempty (strip text)) eqn:E.
  - unfold seq, lift. rewrite H. unfold get. rewrite Hr. reflexivity.
  - reflexivity.
Qed.

Lemma startup_accepts (text : str) (d : list (str * value))
  (rest : list value) :
  loads (strip text) = Return (VList (VDict d :: rest)) ->
  eq_str (match lookup (u "role") d with Some r => r | None => VNone end)
         (u "system") = true ->
  startup (Some text) = (Return tt, World (VDict d :: rest) (Some text) 0).
Proof.
  intros H Hr. unfold startup, load_history_from_file, try_except_prog. simpl.
  destruct (nonempty (strip text)) eqn:E.
  - unfold seq, lift. rewrite H. unfold get. rewrite Hr. reflexivity.
  - destruct (strip text); [discriminate H | discriminate E].
Qed.

(** C6 fails on every file whose text is a JSON list with a first element
    that is not an object (the list [[1]], say): such a list is one whose
    first element does not have role system, yet [load_history_from_file]
    evaluates [loaded_history[0].get] on that element, the AttributeError is
    not among the exceptions the handler names, and the import of the module
    fails with it, the global still empty. *)
Theorem startup_first_not_an_object (text : str) (first : value)
  (rest : list value) :
  loads (strip text) = Return (VList (first :: rest)) ->
  (forall d, first <> VDict d) ->
  startup (Some text) = (Raise AttributeError, World [] (Some text) 0).
Proof.
  intros H Hf. unfold startup, load_history_from_file, try_except_prog. simpl.
  destruct (nonempty (strip text)) eqn:E.
  - unfold seq, lift. rewrite H.
    destruct first; try reflexivity. destruct (Hf d eq_refl).
  - destruct (strip text); [discriminate H | discriminate E].
Qed.

Lemma startup_first_not_an_object_witness :
  startup (Some (q "[1]")) = (Raise AttributeError, World [] (Some (q "[1]")) 0).
Proof.
  apply (startup_first_not_an_object (q "[1]") (first := VInt 1) (rest := [])).
  - vm_compute. reflexivity.
  - intros d. discriminate.
Defined.

End Startup.

(* ================================================================== *)
(** ** The streamed path: the relay loop and the commit after it *)

Module Stream.

Import Text Py Json Main Spec.

Lemma loads_raises (s : str) (e : exn) :
  loads s = Raise e -> e = JSONDecodeError.
Proof.
  unfold loads. intros H.
  destruct (match s with c :: _ => (c =? 65279)%N | [] => false end).
  - now inversion H.
  - destruct (scan_once _ _) as [v r | |]; try now inversion H.
    destruct (skip_ws r); now inversion H.
Qed.

Lemma loads_empty : loads [] = Raise JSONDecodeError.
Proof. reflexivity. Qed.

(** Whenever the [try] statement around the parsing of a chunk completes,
    the accumulator has grown by exactly the fragment of the chunk. *)
Lemma history_of_chunk_returns (text full full' : str) :
  history_of_chunk text full = Return full' ->
  full' = full ++ match fragment_of_text text with
                  | Some c => c
                  | None => []
                  end.
Proof.
  unfold history_of_chunk, fragment_of_text, try_except.
  destruct (nonempty (strip text)) eqn:Hne.
  - destruct (loads (strip text)) as [v | e] eqn:Hl.
    + destruct v as [| | | | | | d]; simpl; try discriminate.
      destruct (lookup (u "message") d) as [m |]; simpl.
      * destruct m as [| | | | | | md]; simpl; try discriminate.
        destruct (lookup (u "content") md) as [c |]; simpl.
        -- destruct c as [| [|] | z | f | c | l | cd]; simpl;
             try discriminate;
             try (intros H; inversion H; now rewrite app_nil_r).
           ++ destruct (negb (z =? 0)%Z); simpl; try discriminate.
              intros H; inversion H; now rewrite app_nil_r.
           ++ destruct f; simpl; try discriminate.
              intros H; inversion H; now rewrite app_nil_r.
           ++ destruct c; simpl; intros H; inversion H;
                [now rewrite app_nil_r | reflexivity].
           ++ destruct l; simpl; try discriminate.
              intros H; inversion H; now rewrite app_nil_r.
           ++ destruct cd; simpl; try discriminate.
              intros H; inversion H; now rewrite app_nil_r.
        -- intros H; inversion H; now rewrite app_nil_r.
      * intros H; inversion H; now rewrite app_nil_r.
    + rewrite (loads_raises _ Hl). simpl.
      intros H; inversion H; now rewrite app_nil_r.
  - destruct (strip text); [| discriminate Hne].
    rewrite loads_empty. simpl. intros H; inversion H; now rewrite app_nil_r.
Qed.

(** The loop, when it reaches the end of the chunks, has accumulated the
    fragments in arrival order. *)
Lemma relay_returns (chunks : list bytes) :
  forall full yielded full',
    relay chunks full = (yielded, Return full') ->
    full' = full ++ reconstruction chunks.
Proof.
  induction chunks as [| chunk later IH]; intros full yielded full' H.
  - simpl in H. inversion H. now rewrite app_nil_r.
  - simpl in H. unfold reconstruction. simpl. unfold fragment.
    destruct (nonempty chunk) eqn:Hne.
    + destruct (decode_utf8 chunk) as [text |]; [| discriminate H].
      destruct (history_of_chunk text full) as [full1 | e] eqn:Hh;
        [| discriminate H].
      destruct (relay later full1) as [ys r] eqn:Hr. inversion H; subst.
      apply history_of_chunk_returns in Hh. apply IH in Hr. subst.
      now rewrite app_assoc.
    + destruct chunk; [| discriminate Hne]. simpl.
      apply IH in H. exact H.
Qed.

(** A chunk that does not parse is skipped: the handler of the [try]
    statement keeps the accumulator. *)
Lemma history_of_chunk_unparsable (text full : str) :
  loads (strip text) = Raise JSONDecodeError ->
  history_of_chunk text full = Return full.
Proof.
  intros H. unfold history_of_chunk.
  destruct (nonempty (strip text)); [| reflexivity].
  rewrite H. reflexivity.
Qed.

(** So is a JSON object without message, or with a message object without
    content. *)
Lemma history_of_chunk_without_content (text full : str)
  (d : list (str * value)) :
  loads (strip text) = Return (VDict d) ->
  (lookup (u "message") d = None
   \/ exists m, lookup (u "message") d = Some (VDict m)
                /\ lookup (u "content") m = None) ->
  history_of_chunk text full = Return full.
Proof.
  intros Hl Hm. unfold history_of_chunk.
  destruct (nonempty (strip text)); [| reflexivity].
  rewrite Hl. simpl.
  destruct Hm as [Hm | [m [Hm Hc]]]; rewrite Hm; simpl;
    [| rewrite Hc]; reflexivity.
Qed.

(** When the loop reaches the end of the chunks, it has yielded every
    non-empty chunk, decoded, in arrival order. *)
Lemma relay_yields (chunks : list bytes) :
  forall full yielded full',
    relay chunks full = (yielded, Return full') ->
    yielded = decoded (filter nonempty chunks).
Proof.
  induction chunks as [| chunk later IH]; intros full yielded full' H.
  - simpl in H. inversion H. reflexivity.
  - simpl in H. cbn [filter].
    destruct (nonempty chunk).
    + destruct (decode_utf8 chunk) as [text |] eqn:Hd; [| discriminate H].
      destruct (history_of_chunk text full) as [full1 | e];
        [| discriminate H].
      destruct (relay later full1) as [ys r] eqn:Hr. inversion H; subst.
      unfold decoded. cbn [map]. rewrite Hd.
      f_equal. apply (IH full1 ys full' Hr).
    + apply (IH full yielded full' H).
Qed.

(** C2 fails on every chunk that is not valid utf-8 on its own, such as the
    first half of a line cut inside a multi-byte character: the generator
    decodes before it yields, so the chunk is not forwarded, the
    UnicodeDecodeError ends the generator, and no later chunk reaches the
    caller; nothing is committed. *)
Theorem relay_stops_at_undecodable (chunk : bytes) (later : list bytes)
  (w : world) :
  decode_utf8 chunk = None ->
  relay (chunk :: later) [] = ([], Raise UnicodeDecodeError)
  /\ stream_generator (chunk :: later) w = ([], Raise UnicodeDecodeError, w).
Proof.
  intros H.
  assert (R : relay (chunk :: later) [] = ([], Raise UnicodeDecodeError)).
  { simpl. destruct chunk; [discriminate H |]. simpl nonempty. cbv iota.
    rewrite H. reflexivity. }
  split; [exact R |]. unfold stream_generator. rewrite R. reflexivity.
Qed.

Lemma relay_stops_at_undecodable_witness :
  decode_utf8 accented_line
  = Some (q "{'message':{'content':'" ++ [233%N] ++ q "'}}" ++ [10%N])
  /\ relay accented_split [] = ([], Raise UnicodeDecodeError)
  /\ stream_generator accented_split (World fresh None 0)
     = ([], Raise UnicodeDecodeError, World fresh None 0).
Proof.
  split; [vm_compute; reflexivity |].
  apply (relay_stops_at_undecodable (firstn 24 accented_line)
           [skipn 24 accented_line] (World fresh None 0)).
  vm_compute. reflexivity.
Defined.

(** C3 fails on every chunk whose trimmed text is JSON but not an object (a
    list, a number, a string, null): it fails to parse as a JSON object, yet
    it is not skipped.  The chunk is forwarded, [json_line.get] raises
    AttributeError, which the handler for JSONDecodeError does not catch:
    the generator ends there, no later chunk is relayed, nothing is
    committed. *)
Theorem relay_aborted_by_non_object (chunk : bytes) (later : list bytes)
  (text : str) (v : value) (w : world) :
  decode_utf8 chunk = Some text ->
  loads (strip text) = Return v ->
  (forall d, v <> VDict d) ->
  relay (chunk :: later) [] = ([text], Raise AttributeError)
  /\ stream_generator (chunk :: later) w = ([text], Raise AttributeError, w).
Proof.
  intros Hd Hl Hv.
  assert (Hs : nonempty (strip text) = true).
  { destruct (strip text); [discriminate Hl | reflexivity]. }
  assert (Hc : nonempty chunk = true).
  { destruct chunk; [| reflexivity].
    simpl in Hd. inversion Hd; subst. discriminate Hs. }
  assert (Hh : history_of_chunk text [] = Raise AttributeError).
  { unfold history_of_chunk. rewrite Hs, Hl.
    destruct v; try reflexivity. destruct (Hv d eq_refl). }
  assert (R : relay (chunk :: later) [] = ([text], Raise AttributeError)).
  { simpl. rewrite Hc, Hd, Hh. reflexivity. }
  split; [exact R |]. unfold stream_generator. rewrite R. reflexivity.
Qed.

Lemma relay_aborted_by_non_object_witness :
  relay list_then_line [] = ([q "[1]" ++ [10%N]], Raise AttributeError)
  /\ stream_generator list_then_line (World fresh None 0)
     = ([q "[1]" ++ [10%N]], Raise AttributeError, World fresh None 0).
Proof.
  apply (@relay_aborted_by_non_object
           (qb "[1]" ++ [x0a])
           [qb "{'message':{'content':'Hi'}}" ++ [x0a]]
           (q "[1]" ++ [10%N]) (VList [VInt 1])
           (World fresh None 0)).
  - vm_compute. reflexivity.
  - vm_compute. reflexivity.
  - intros d. discriminate.
Defined.



End Stream.

(* ================================================================== *)
(** ** The invariant of the conversation *)

Module Invariant.

Import Text Py Json Main Spec.

Lemma fresh_headed : headed_by_system fresh = true.
Proof. reflexivity. Qed.

Lemma headed_app (h l : list value) :
  headed_by_system h = true -> headed_by_system (h ++ l) = true.
Proof. destruct h; [discriminate | trivial]. Qed.

(** The chat endpoint only ever appends to the history, whether it returns
    or raises. *)
Lemma chat_extends (request : ChatRequest) (ollama : backend) (w w' : world)
  (r : result response) :
  chat request ollama w = (r, w') ->
  exists l, conversation_history w' = conversation_history w ++ l.
Proof.
  unfold chat, seq, append_history, save_history_to_file, lift, ret, raise.
  destruct (wants_stream request).
  - intros H; inversion H; subst. simpl. eauto.
  - destruct (post ollama) as [| s text].
    + intros H; inversion H; subst. simpl. eauto.
    + destruct (s =? 200)%Z.
      * destruct (loads text) as [v | e];
          [| intros H; inversion H; subst; simpl; eauto].
        destruct (getitem v (u "message")) as [m | e];
          [| intros H; inversion H; subst; simpl; eauto].
        destruct (getitem m (u "content")) as [c | e];
          intros H; inversion H; subst; simpl; [| eauto].
        rewrite <- app_assoc. eauto.
      * intros H; inversion H; subst. simpl. eauto.
Qed.

(** So does a stream generator. *)
Lemma stream_extends (chunks : list bytes) (w w' : world)
  (yielded : list str) (r : result unit) :
  stream_generator chunks w = (yielded, r, w') ->
  exists l, conversation_history w' = conversation_history w ++ l.
Proof.
  unfold stream_generator.
  destruct (relay chunks []) as [ys [full | e]].
  - destruct (nonempty full); intros H; inversion H; subst; simpl.
    + eauto.
    + exists []. now rewrite app_nil_r.
  - intros H; inversion H; subst. exists []. now rewrite app_nil_r.
Qed.

(** An import of the module that succeeds leaves a history headed by a
    system turn. *)
Lemma startup_headed (file : option str) (w : world) :
  startup file = (Return tt, w) ->
  headed_by_system (conversation_history w) = true.
Proof.
  unfold startup, load_history_from_file, try_except_prog.
  destruct file as [text |]; simpl.
  - destruct (nonempty (strip text)).
    + unfold seq, lift.
      destruct (loads (strip text)) as [v | e].
      * destruct v as [| | | | | [| first rest] |];
          try (intros H; inversion H; reflexivity).
        destruct first as [| | | | | | d]; simpl; try discriminate.
        destruct (eq_str _ (u "system")) eqn:E;
          intros H; inversion H; subst; simpl; [| reflexivity].
        exact E.
      * simpl. destruct (exn_eqb e JSONDecodeError || _);
          intros H; inversion H. reflexivity.
    + intros H; inversion H. reflexivity.
  - intros H; inversion H. reflexivity.
Qed.

(** C8.  In every state reachable from a successful startup by chat calls
    (buffered or streamed, returning or raising), runs of stream generators
    and resets, the conversation is non-empty and its first element has
    role system. *)
Theorem conversation_invariant (w : world) :
  reachable w -> headed_by_system (conversation_history w) = true.
Proof.
  induction 1 as [file w H | request ollama w r w' _ IH H
                  | chunks w yielded r w' _ IH H | w r w' _ IH H].
  - apply (startup_headed file H).
  - destruct (chat_extends request ollama w H) as [l ->].
    apply headed_app, IH.
  - destruct (stream_extends chunks w H) as [l ->].
    apply headed_app, IH.
  - unfold reset, seq, reset_history, assign_history, save_history_to_file,
      ret in H.
    inversion H; subst. reflexivity.
Qed.

Lemma conversation_invariant_witness :
  headed_by_system
    (conversation_history
       (snd (chat {| message := u "Hi"; stream := Some false |}
                  {| post := Responded 500 (u "oops"); aiter_bytes := [] |}
                  (snd (startup (Some (q "[]"))))))) = true.
Proof.
  apply conversation_invariant.
  apply (reach_chat {| message := u "Hi"; stream := Some false |}
           {| post := Responded 500 (u "oops"); aiter_bytes := [] |}
           (w := snd (startup (Some (q "[]"))))
           (r := fst (chat {| message := u "Hi"; stream := Some false |}
                           {| post := Responded 500 (u "oops");
                              aiter_bytes := [] |}
                           (snd (startup (Some (q "[]"))))))).
  - apply (reach_startup (Some (q "[]"))). vm_compute. reflexivity.
  - apply surjective_pairing.
Defined.

End Invariant.

(* ================================================================== *)
(** ** Facts about the json model *)

Module JsonFacts.

Import Text Py Json.

Local Open Scope N_scope.

(** *** Every scanning function consumes text, so the budget suffices *)

Lemma skip_ws_length (s : str) :
  (List.length (skip_ws s) <= List.length s)%nat.
Proof.
  induction s as [| c s IH]; simpl; [lia |].
  destruct (is_ws c); simpl; lia.
Qed.

Lemma push_some (c : char) (x : option (str * str)) (t r : str) :
  push c x = Some (t, r) -> exists t', x = Some (t', r).
Proof.
  destruct x as [[t' r'] |]; simpl; [| discriminate].
  intros H; inversion H; subst. eauto.
Qed.

Ltac break_head H :=
  match type of H with
  | (if ?b then _ else _) = _ => destruct b eqn:?
  | (match ?x with _ => _ end) = _ => destruct x eqn:?
  end.

Lemma scanstring_shorter :
  forall (n : nat) (s t r : str),
    (List.length s <= n)%nat ->
    scanstring s = Some (t, r) -> (List.length r < List.length s)%nat.
Proof.
  induction n as [| n IH]; intros s t r Hn H.
  - destruct s; [discriminate H | simpl in Hn; lia].
  - destruct s as [| c s1]; [discriminate H |].
    simpl in Hn. cbn [scanstring] in H.
    repeat first
      [ discriminate H
      | match type of H with
        | Some _ = Some _ => solve [inversion H; subst; cbn [List.length]; lia]
        | push _ _ = _ =>
          solve [apply push_some in H; destruct H as [t' H];
                 apply IH in H; subst; cbn [List.length] in *; lia]
        end
      | break_head H ].
Qed.

Lemma digits_rest (s : str) :
  forall acc n z m r,
    digits s acc n = (z, m, r) ->
    (List.length r <= List.length s)%nat.
Proof.
  induction s as [| c s IH]; intros acc n z m r H; simpl in H.
  - inversion H; subst. simpl. lia.
  - destruct (is_digit c).
    + apply IH in H. simpl. lia.
    + inversion H; subst. simpl. lia.
Qed.

Ltac bools :=
  unfold is_digit, is_ws, between in *;
  rewrite ?andb_true_iff, ?andb_false_iff, ?orb_true_iff, ?orb_false_iff,
    ?N.leb_le, ?N.leb_gt, ?N.eqb_eq, ?N.eqb_neq, ?N.ltb_lt, ?N.ltb_ge in *.

Lemma int_part_shorter (s r : str) (i : Z) :
  int_part s = Some (i, r) -> (List.length r < List.length s)%nat.
Proof.
  unfold int_part. destruct s as [| c s']; [discriminate |].
  destruct (c =? 48) eqn:E0.
  - intros H; inversion H; subst. simpl. lia.
  - destruct (between 49 c 57) eqn:E1; [| discriminate].
    destruct (digits (c :: s') 0%Z 0%nat) as [[z m] r'] eqn:E.
    intros H; inversion H; subst.
    simpl in E. destruct (is_digit c) eqn:E2.
    + apply digits_rest in E. simpl. lia.
    + exfalso. bools. lia.
Qed.

Lemma frac_part_shorter (s r : str) (f : Z) (n : nat) :
  frac_part s = Some (f, n, r) -> (List.length r < List.length s)%nat.
Proof.
  unfold frac_part. destruct s as [| p [| d s']]; try discriminate.
  destruct ((p =? 46) && is_digit d); [| discriminate].
  intros H.
  assert (E : digits (d :: s') 0%Z 0%nat = (f, n, r)).
  { change (tl (p :: d :: s')) with (d :: s') in H.
    destruct (digits (d :: s') 0%Z 0%nat) as [[f' n'] r'].
    now inversion H. }
  apply digits_rest in E. simpl in *. lia.
Qed.

Lemma exp_part_shorter (s r : str) (x : Z) :
  exp_part s = Some (x, r) -> (List.length r < List.length s)%nat.
Proof.
  unfold exp_part. destruct s as [| e s1]; [discriminate |].
  destruct ((e =? 101) || (e =? 69)); [| discriminate].
  destruct s1 as [| sg s2].
  - simpl. discriminate.
  - destruct (sg =? 45).
    + destruct (digits s2 0%Z 0%nat) as [[z [| m]] r'] eqn:E; [discriminate |].
      intros H; inversion H; subst. apply digits_rest in E. simpl. lia.
    + destruct (sg =? 43).
      * destruct (digits s2 0%Z 0%nat) as [[z [| m]] r'] eqn:E;
          [discriminate |].
        intros H; inversion H; subst. apply digits_rest in E. simpl. lia.
      * destruct (digits (sg :: s2) 0%Z 0%nat) as [[z [| m]] r'] eqn:E;
          [discriminate |].
        intros H; inversion H; subst. apply digits_rest in E.
        simpl in *. lia.
Qed.

Lemma match_number_shorter (s r : str) (v : value) :
  match_number s = Scanned v r -> (List.length r < List.length s)%nat.
Proof.
  unfold match_number.
  destruct (match s with
            | c :: s' => if c =? 45 then (true, s') else (false, s)
            | [] => (false, s)
            end) as [neg s0] eqn:E0.
  assert (L0 : (List.length s0 <= List.length s)%nat).
  { destruct s as [| c s']; [inversion E0; subst; simpl; lia |].
    destruct (c =? 45); inversion E0; subst; simpl; lia. }
  destruct (int_part s0) as [[i s1] |] eqn:Ei; [| discriminate].
  apply int_part_shorter in Ei.
  destruct (frac_part s1) as [[[f n] s2] |] eqn:Ef.
  - apply frac_part_shorter in Ef.
    destruct (exp_part s2) as [[x s3] |] eqn:Ex.
    + apply exp_part_shorter in Ex. intros H; inversion H; subst. lia.
    + intros H; inversion H; subst. lia.
  - destruct (exp_part s1) as [[x s3] |] eqn:Ex.
    + apply exp_part_shorter in Ex. intros H; inversion H; subst. lia.
    + intros H; inversion H; subst. lia.
Qed.

Lemma after_length (w s r : str) :
  after w s = Some r -> List.length s = (List.length w + List.length r)%nat.
Proof.
  revert s. induction w as [| a w IH]; intros s H; simpl in H.
  - inversion H; subst. reflexivity.
  - destruct s as [| c s']; [discriminate |].
    destruct (a =? c); [| discriminate].
    apply IH in H. simpl. lia.
Qed.

Lemma budget_suffices (fuel : nat) :
  (forall s, (2 * List.length s + 1 <= fuel)%nat ->
             progress (scan_once fuel s) s)
  /\ (forall s, (2 * List.length s + 2 <= fuel)%nat ->
                progress (items fuel s) s)
  /\ (forall s, (2 * List.length s + 2 <= fuel)%nat ->
                progress (members fuel s) s).
Proof.
  induction fuel as [| fuel [IHs [IHi IHm]]].
  - repeat split; intros s H; lia.
  - repeat split; intros s Hf.
    + (* scan_once *)
      destruct s as [| c s1]; [exact I |].
      cbn [scan_once]. cbn [List.length] in Hf.
      pose proof (skip_ws_length s1) as Hw.
      destruct (c =? 34).
      { destruct (scanstring s1) as [[t r] |] eqn:E; [| exact I].
        apply (scanstring_shorter (n := List.length s1)) in E; [| lia].
        simpl. lia. }
      destruct (c =? 123).
      { destruct (skip_ws s1) as [| c1 r1] eqn:E1; [exact I |].
        cbn [List.length] in Hw.
        destruct (c1 =? 125); [simpl; lia |].
        assert (P : progress (members fuel (c1 :: r1)) (c1 :: r1))
          by (apply IHm; cbn [List.length]; lia).
        destruct (members fuel (c1 :: r1)); simpl in *; [lia | exact I | exact P]. }
      destruct (c =? 91).
      { destruct (skip_ws s1) as [| c1 r1] eqn:E1; [exact I |].
        cbn [List.length] in Hw.
        destruct (c1 =? 93); [simpl; lia |].
        assert (P : progress (items fuel (c1 :: r1)) (c1 :: r1))
          by (apply IHi; cbn [List.length]; lia).
        destruct (items fuel (c1 :: r1)); simpl in *; [lia | exact I | exact P]. }
      destruct (after (u "null") (c :: s1)) eqn:A1;
        [apply after_length in A1; simpl in *; lia |].
      destruct (after (u "true") (c :: s1)) eqn:A2;
        [apply after_length in A2; simpl in *; lia |].
      destruct (after (u "false") (c :: s1)) eqn:A3;
        [apply after_length in A3; simpl in *; lia |].
      destruct (after (u "NaN") (c :: s1)) eqn:A4;
        [apply after_length in A4; simpl in *; lia |].
      destruct (after (u "Infinity") (c :: s1)) eqn:A5;
        [apply after_length in A5; simpl in *; lia |].
      destruct (after (u "-Infinity") (c :: s1)) eqn:A6;
        [apply after_length in A6; simpl in *; lia |].
      destruct (match_number (c :: s1)) eqn:E; try exact I.
      * apply match_number_shorter in E. simpl in *. lia.
      * unfold match_number in E.
        repeat match type of E with
               | context [match ?x with _ => _ end] => destruct x
               end; discriminate E.
    + (* items *)
      cbn [items].
      specialize (IHs s).
      destruct (scan_once fuel s) as [v r | |]; simpl in IHs.
      * assert (Hr : (List.length r < List.length s)%nat) by (apply IHs; lia).
        pose proof (skip_ws_length r) as Hw.
        destruct (skip_ws r) as [| c r1]; [exact I |].
        destruct (c =? 93); [simpl in *; lia |].
        destruct (c =? 44); [| exact I].
        pose proof (skip_ws_length r1) as Hw1.
        specialize (IHi (skip_ws r1)).
        destruct (items fuel (skip_ws r1)); simpl in *; try exact I.
        -- assert (List.length rest < List.length (skip_ws r1))%nat
             by (apply IHi; lia). lia.
        -- apply IHi. lia.
      * exact I.
      * apply IHs. lia.
    + (* members *)
      cbn [members].
      destruct s as [| q0 s1]; [exact I |].
      destruct (q0 =? 34); [| exact I].
      destruct (scanstring s1) as [[key r] |] eqn:E; [| exact I].
      apply (scanstring_shorter (n := List.length s1)) in E; [| lia].
      pose proof (skip_ws_length r) as Hw.
      destruct (skip_ws r) as [| colon r1]; [exact I |].
      destruct (colon =? 58); [| exact I].
      pose proof (skip_ws_length r1) as Hw1.
      specialize (IHs (skip_ws r1)).
      cbn [List.length] in *.
      destruct (scan_once fuel (skip_ws r1)) as [v r2 | |]; simpl in IHs.
      * assert (Hr : (List.length r2 < List.length (skip_ws r1))%nat)
          by (apply IHs; lia).
        pose proof (skip_ws_length r2) as Hw2.
        destruct (skip_ws r2) as [| c r3]; [exact I |].
        destruct (c =? 125); [simpl in *; lia |].
        destruct (c =? 44); [| exact I].
        pose proof (skip_ws_length r3) as Hw3.
        specialize (IHm (skip_ws r3)).
        destruct (members fuel (skip_ws r3)); simpl in *; try exact I.
        -- assert (List.length rest < List.length (skip_ws r3))%nat
             by (apply IHm; lia). lia.
        -- apply IHm. lia.
      * exact I.
      * apply IHs. lia.
Qed.

(** [loads] never runs out of budget: its answer is the answer of the
    scanner. *)
Lemma loads_budget (s : str) :
  scan_once (2 * List.length s + 1) (skip_ws s) <> Exhausted.
Proof.
  intros E.
  pose proof (proj1 (budget_suffices (2 * List.length s + 1)) (skip_ws s)) as H.
  rewrite E in H. apply H.
  pose proof (skip_ws_length s). lia.
Qed.

End JsonFacts.

(* ================================================================== *)
(** ** Persist, then restore *)

Module RoundTrip.

Import Text Py Json Main Spec.

Local Open Scope N_scope.

(** *** Strings read back *)

Lemma scanstring_control (n : nat) (tail : str) :
  (n < 32)%nat ->
  scanstring (escape_char (N.of_nat n) ++ tail)
  = push (N.of_nat n) (scanstring tail).
Proof.
  intros H.
  do 32 (destruct n as [| n]; [reflexivity |]).
  lia.
Qed.

Lemma scanstring_escape_char (c : char) (tail : str) :
  scanstring (escape_char c ++ tail) = push c (scanstring tail).
Proof.
  destruct (c <? 32) eqn:Hc.
  - apply N.ltb_lt in Hc.
    rewrite <- (N2Nat.id c). apply scanstring_control. lia.
  - apply N.ltb_ge in Hc. unfold escape_char.
    destruct (c =? 34) eqn:E1; [apply N.eqb_eq in E1; subst; reflexivity |].
    destruct (c =? 92) eqn:E2; [apply N.eqb_eq in E2; subst; reflexivity |].
    destruct (c =? 10) eqn:E3; [apply N.eqb_eq in E3; lia |].
    destruct (c =? 13) eqn:E4; [apply N.eqb_eq in E4; lia |].
    destruct (c =? 9) eqn:E5; [apply N.eqb_eq in E5; lia |].
    destruct (c =? 8) eqn:E6; [apply N.eqb_eq in E6; lia |].
    destruct (c =? 12) eqn:E7; [apply N.eqb_eq in E7; lia |].
    destruct (c <? 32) eqn:E8; [apply N.ltb_lt in E8; lia |].
    cbn [app scanstring]. rewrite E1, E2.
    destruct (c <=? 31) eqn:E9; [apply N.leb_le in E9; lia | reflexivity].
Qed.

Lemma scanstring_escaped (s rest : str) :
  scanstring (flat_map escape_char s ++ 34 :: rest) = Some (s, rest).
Proof.
  induction s as [| c s IH]; [reflexivity |].
  cbn [flat_map]. rewrite <- app_assoc, scanstring_escape_char, IH.
  reflexivity.
Qed.

Lemma scan_once_basestring (f : nat) (s rest : str) :
  scan_once (S f) (encode_basestring s ++ rest) = Scanned (VStr s) rest.
Proof.
  unfold encode_basestring. cbn [app]. rewrite <- app_assoc. cbn [app].
  cbn [scan_once]. change (34 =? 34) with true. cbv iota.
  rewrite scanstring_escaped. reflexivity.
Qed.

(** *** Line breaks and indentation are skipped *)

Lemma skip_ws_spaces (n : nat) (c : char) (r : str) :
  is_ws c = false -> skip_ws (repeat 32 n ++ c :: r) = c :: r.
Proof.
  intros H. induction n as [| n IH]; simpl.
  - rewrite H. reflexivity.
  - exact IH.
Qed.

Lemma skip_ws_newline_indent (k : nat) (c : char) (r : str) :
  is_ws c = false -> skip_ws (newline_indent k ++ c :: r) = c :: r.
Proof.
  intros H. unfold newline_indent. cbn [app skip_ws].
  change (is_ws 10) with true. cbv iota. apply skip_ws_spaces, H.
Qed.

(** *** One turn reads back *)

(** The text of a dict with two string values, as [encode] lays it out at
    nesting level 1. *)
Lemma encode_turn (role : str) (content : str) :
  encode 1 (turn role (VStr content))
  = 123 :: newline_indent 2
    ++ encode_basestring (u "role") ++ 58 :: 32 :: encode_basestring role
    ++ 44 :: newline_indent 2
    ++ encode_basestring (u "content") ++ 58 :: 32
       :: encode_basestring content
    ++ newline_indent 1 ++ [125].
Proof.
  unfold turn. cbn [encode flat_map fst snd app].
  rewrite app_nil_r. rewrite <- !app_assoc. reflexivity.
Qed.

Lemma encode_basestring_head (s tail : str) :
  encode_basestring s ++ tail = 34 :: (flat_map escape_char s ++ 34 :: tail).
Proof.
  unfold encode_basestring. cbn [app]. rewrite <- app_assoc. reflexivity.
Qed.

Ltac right_assoc :=
  repeat (rewrite <- app_assoc || rewrite <- app_comm_cons).

Lemma skip_ws_stop (c : char) (s : str) :
  is_ws c = false -> skip_ws (c :: s) = c :: s.
Proof. intros H. cbn [skip_ws]. rewrite H. reflexivity. Qed.

Lemma skip_ws_over (c : char) (s : str) :
  is_ws c = true -> skip_ws (c :: s) = skip_ws s.
Proof. intros H. cbn [skip_ws]. rewrite H. reflexivity. Qed.

Lemma members_key (f : nat) (s1 : str) :
  members (S f) (34 :: s1)
  = match scanstring s1 with
    | Some (key, r) =>
      match skip_ws r with
      | colon :: r1 =>
        if colon =? 58 then
          match scan_once f (skip_ws r1) with
          | Scanned v r2 =>
            match skip_ws r2 with
            | c :: r3 =>
              if c =? 125 then Scanned [(key, v)] r3
              else if c =? 44 then
                match members f (skip_ws r3) with
                | Scanned ps r4 => Scanned ((key, v) :: ps) r4
                | Malformed => Malformed
                | Exhausted => Exhausted
                end
              else Malformed
            | [] => Malformed
            end
          | Malformed => Malformed
          | Exhausted => Exhausted
          end
        else Malformed
      | [] => Malformed
      end
    | None => Malformed
    end.
Proof. reflexivity. Qed.

Lemma scan_once_object (f : nat) (s1 : str) :
  scan_once (S f) (123 :: s1)
  = match skip_ws s1 with
    | c1 :: r1 =>
      if c1 =? 125 then Scanned (VDict []) r1
      else
        match members f (skip_ws s1) with
        | Scanned ps r => Scanned (VDict (dict_of_pairs ps)) r
        | Malformed => Malformed
        | Exhausted => Exhausted
        end
    | [] => Malformed
    end.
Proof. reflexivity. Qed.

Lemma scan_once_array (f : nat) (s1 : str) :
  scan_once (S f) (91 :: s1)
  = match skip_ws s1 with
    | c1 :: r1 =>
      if c1 =? 93 then Scanned (VList []) r1
      else
        match items f (skip_ws s1) with
        | Scanned vs r => Scanned (VList vs) r
        | Malformed => Malformed
        | Exhausted => Exhausted
        end
    | [] => Malformed
    end.
Proof. reflexivity. Qed.

Lemma items_step (f : nat) (s : str) :
  items (S f) s
  = match scan_once f s with
    | Scanned v r =>
      match skip_ws r with
      | c :: r1 =>
        if c =? 93 then Scanned [v] r1
        else if c =? 44 then
          match items f (skip_ws r1) with
          | Scanned vs r2 => Scanned (v :: vs) r2
          | Malformed => Malformed
          | Exhausted => Exhausted
          end
        else Malformed
      | [] => Malformed
      end
    | Malformed => Malformed
    | Exhausted => Exhausted
    end.
Proof. reflexivity. Qed.

(** A key, a colon, a space and a string value, then whatever follows. *)
Lemma members_string (f : nat) (k v tail : str) :
  members (S (S f))
          (encode_basestring k ++ 58 :: 32 :: encode_basestring v ++ tail)
  = match skip_ws tail with
    | c :: r3 =>
      if c =? 125 then Scanned [(k, VStr v)] r3
      else if c =? 44 then
        match members (S f) (skip_ws r3) with
        | Scanned ps r4 => Scanned ((k, VStr v) :: ps) r4
        | Malformed => Malformed
        | Exhausted => Exhausted
        end
      else Malformed
    | [] => Malformed
    end.
Proof.
  rewrite encode_basestring_head, members_key, scanstring_escaped.
  rewrite (skip_ws_stop 58) by reflexivity.
  change (58 =? 58) with true. cbv iota.
  rewrite (skip_ws_over 32) by reflexivity.
  rewrite encode_basestring_head, (skip_ws_stop 34) by reflexivity.
  rewrite <- encode_basestring_head, scan_once_basestring.
  reflexivity.
Qed.

Lemma scan_once_turn (f : nat) (role content rest : str) :
  scan_once (4 + f) (encode 1 (turn role (VStr content)) ++ rest)
  = Scanned (turn role (VStr content)) rest.
Proof.
  rewrite encode_turn. right_assoc.
  change (4 + f)%nat with (S (S (S (S f)))).
  rewrite scan_once_object.
  rewrite encode_basestring_head, skip_ws_newline_indent by reflexivity.
  change (34 =? 125) with false. cbv iota.
  rewrite <- encode_basestring_head.
  rewrite members_string.
  rewrite (skip_ws_stop 44) by reflexivity.
  change (44 =? 125) with false. change (44 =? 44) with true. cbv iota.
  rewrite encode_basestring_head, skip_ws_newline_indent by reflexivity.
  rewrite <- encode_basestring_head.
  rewrite members_string.
  rewrite skip_ws_newline_indent by reflexivity.
  change (125 =? 125) with true. cbv iota.
  reflexivity.
Qed.

(** *** A list of turns reads back *)

Lemma encode_turn_head (role content : str) :
  exists y, encode 1 (turn role (VStr content)) = 123 :: y.
Proof. rewrite encode_turn. eauto. Qed.

Lemma skip_ws_before_turn (k : nat) (t : Turn) (tail : str) :
  skip_ws (newline_indent k ++ encode 1 (of_turn t) ++ tail)
  = encode 1 (of_turn t) ++ tail.
Proof.
  unfold of_turn.
  destruct (encode_turn_head (role_name (turn_role t)) (turn_content t))
    as [y ->].
  cbn [app]. apply skip_ws_newline_indent. reflexivity.
Qed.

Lemma items_turns (ts : list Turn) :
  forall (t : Turn) (f : nat) (rest : str),
    items (5 + List.length ts + f)
          (encode 1 (of_turn t) ++ flat_map item (map of_turn ts)
           ++ newline_indent 0 ++ 93 :: rest)
    = Scanned (of_turn t :: map of_turn ts) rest.
Proof.
  induction ts as [| t' ts IH]; intros t f rest.
  - change (5 + List.length (@nil Turn) + f)%nat with (S (4 + f)).
    rewrite items_step. unfold of_turn at 1. rewrite scan_once_turn.
    cbn [map flat_map app].
    rewrite skip_ws_newline_indent by reflexivity.
    change (93 =? 93) with true. cbv iota. reflexivity.
  - change (5 + List.length (t' :: ts) + f)%nat
      with (S (4 + S (List.length ts + f))).
    rewrite items_step. unfold of_turn at 1. rewrite scan_once_turn.
    cbn [map flat_map]. unfold item at 1. right_assoc.
    rewrite (skip_ws_stop 44) by reflexivity.
    change (44 =? 93) with false. change (44 =? 44) with true. cbv iota.
    rewrite (skip_ws_before_turn 1 t').
    change (4 + S (List.length ts + f))%nat
      with (5 + List.length ts + f)%nat.
    rewrite IH. reflexivity.
Qed.

Lemma dump_turns (t : Turn) (ts : list Turn) :
  dump (VList (map of_turn (t :: ts)))
  = 91 :: newline_indent 1 ++ encode 1 (of_turn t)
    ++ flat_map item (map of_turn ts) ++ newline_indent 0 ++ [93].
Proof. reflexivity. Qed.

Lemma flat_map_item_length (l : list value) :
  (List.length l <= List.length (flat_map item l))%nat.
Proof.
  induction l as [| x l IH]; [simpl; lia |].
  cbn [flat_map]. rewrite length_app. unfold item at 1. simpl. lia.
Qed.

Lemma loads_dump_turns (t : Turn) (ts : list Turn) :
  loads (dump (VList (map of_turn (t :: ts))))
  = Return (VList (map of_turn (t :: ts))).
Proof.
  rewrite dump_turns.
  set (body := newline_indent 1 ++ encode 1 (of_turn t)
               ++ flat_map item (map of_turn ts) ++ newline_indent 0 ++ [93]).
  unfold loads. change (91 =? 65279) with false. cbv iota.
  rewrite (skip_ws_stop 91) by reflexivity.
  assert (L : exists f, (2 * List.length (91%N :: body)
                         = 5 + List.length ts + f)%nat).
  { exists (2 * List.length (91%N :: body) - 5 - List.length ts)%nat.
    pose proof (flat_map_item_length (map of_turn ts)) as H.
    rewrite length_map in H.
    assert (H1 : List.length (newline_indent 1) = 3%nat) by reflexivity.
    subst body. cbn [List.length]. rewrite !length_app. lia. }
  destruct L as [f L].
  rewrite Nat.add_1_r, L, scan_once_array. subst body.
  rewrite (skip_ws_before_turn 1 t).
  set (X := encode 1 (of_turn t) ++ flat_map item (map of_turn ts)
            ++ newline_indent 0 ++ [93]).
  assert (HX : exists y, X = 123 :: y).
  { subst X. unfold of_turn.
    destruct (encode_turn_head (role_name (turn_role t)) (turn_content t))
      as [y ->]. eexists. reflexivity. }
  destruct HX as [y HX]. rewrite HX at 1.
  change (123 =? 93) with false. cbv iota.
  subst X. rewrite (items_turns ts t f []).
  reflexivity.
Qed.

(** *** The written text is already trimmed *)

Lemma lstrip_stop (c : char) (s : str) :
  isspace c = false -> lstrip (c :: s) = c :: s.
Proof. intros H. cbn [lstrip]. rewrite H. reflexivity. Qed.

Lemma strip_bracketed (c d : char) (s : str) :
  isspace c = false -> isspace d = false ->
  strip (c :: s ++ [d]) = c :: s ++ [d].
Proof.
  intros Hc Hd. unfold strip, rstrip. rewrite (@lstrip_stop _ _ Hc).
  change (c :: s ++ [d]) with ((c :: s) ++ [d]).
  rewrite rev_app_distr. cbn [rev app].
  rewrite (@lstrip_stop _ _ Hd).
  change (d :: rev s ++ [c]) with ([d] ++ rev (c :: s)).
  rewrite rev_app_distr, rev_involutive. reflexivity.
Qed.

Lemma strip_dump_turns (t : Turn) (ts : list Turn) :
  strip (dump (VList (map of_turn (t :: ts))))
  = dump (VList (map of_turn (t :: ts))).
Proof.
  rewrite dump_turns.
  rewrite !app_assoc. apply strip_bracketed; reflexivity.
Qed.

Lemma role_name_injective (r r' : role) :
  role_name r = role_name r' -> r = r'.
Proof. destruct r, r'; intros H; try reflexivity; discriminate H. Qed.

Lemma of_turn_injective (c c' : list Turn) :
  map of_turn c' = map of_turn c -> c' = c.
Proof.
  revert c'. induction c as [| t c IH]; intros [| t' c'] H;
    try discriminate H; [reflexivity |].
  cbn [map] in H. unfold of_turn at 1 3, turn in H.
  injection H as Hr Hx Hc.
  apply role_name_injective in Hr.
  destruct t, t'; simpl in *; subst. f_equal. apply IH, Hc.
Qed.

End RoundTrip.

(* ================================================================== *)
(** ** Reset and restart *)

Module Restart.

Import Text Py Json Main Spec.

(** A history of turns that starts with a system turn is restored from the
    text [json.dump] wrote for it. *)
Lemma startup_dump_turns (c : list Turn) :
  well_formed c ->
  startup (Some (dump (VList (map of_turn c))))
  = (Return tt,
     World (map of_turn c) (Some (dump (VList (map of_turn c)))) 0).
Proof.
  destruct c as [| t ts]; [intros [] |]. cbn [well_formed]. intros Hwf.
  cbn [map].
  apply (@Startup.startup_accepts
           (dump (VList (of_turn t :: map of_turn ts)))
           [(u "role", VStr (role_name (turn_role t)));
            (u "content", VStr (turn_content t))]
           (map of_turn ts)).
  - change (of_turn t :: map of_turn ts) with (map of_turn (t :: ts)).
    rewrite RoundTrip.strip_dump_turns. apply RoundTrip.loads_dump_turns.
  - rewrite Hwf. reflexivity.
Qed.

(** X1.  The reset endpoint, from any state: it answers with its fixed
    message, leaves the single system turn as the history and the file
    written from it; a second reset changes neither the history nor the
    file; a restart from that file holds the single system turn again. *)
Theorem reset_establishes (w : world) :
  reset w
  = (Return (JSONBody (VDict [(u "message",
                               VStr (u "Chat history has been reset."))])),
     World fresh (Some (dump (VList fresh))) (S (writes w)))
  /\ conversation_history (snd (reset (snd (reset w)))) = fresh
  /\ chatlog (snd (reset (snd (reset w)))) = chatlog (snd (reset w))
  /\ startup (chatlog (snd (reset w)))
     = (Return tt, World fresh (Some (dump (VList fresh))) 0).
Proof.
  split; [reflexivity | split; [reflexivity | split; [reflexivity |]]].
  apply (startup_dump_turns
           [{| turn_role := system; turn_content := SYSTEM_PROMPT |}]).
  reflexivity.
Qed.

(** X3.  Whatever the file, the import of the module never writes it and
    never changes it.  When it succeeds, the history is the single system
    turn or exactly the list the file holds, whose first element then has
    role system (the later elements are not looked at).  When it fails, the
    history is still empty. *)
Theorem startup_outcomes (file : option str) (r : result unit) (w : world) :
  startup file = (r, w) ->
  chatlog w = file /\ writes w = 0%nat
  /\ (r = Return tt ->
      conversation_history w = fresh
      \/ exists text,
           file = Some text
           /\ loads (strip text) = Return (VList (conversation_history w))
           /\ headed_by_system (conversation_history w) = true)
  /\ (forall e, r = Raise e -> conversation_history w = []).
Proof.
  unfold startup, load_history_from_file, try_except_prog.
  assert (F : forall file0,
            chatlog (World fresh file0 0) = file0
            /\ writes (World fresh file0 0) = 0%nat
            /\ (Return tt = Return tt ->
                conversation_history (World fresh file0 0) = fresh
                \/ exists text,
                     file0 = Some text
                     /\ loads (strip text)
                        = Return (VList (conversation_history
                                           (World fresh file0 0)))
                     /\ headed_by_system
                          (conversation_history (World fresh file0 0)) = true)
            /\ (forall e, @Return unit tt = Raise e ->
                   conversation_history (World fresh file0 0) = [])).
  { intros file0. split; [reflexivity | split; [reflexivity | split]].
    - intros _. left. reflexivity.
    - intros e R. discriminate R. }
  assert (G : forall file0 e0,
            chatlog (World [] file0 0) = file0
            /\ writes (World [] file0 0) = 0%nat
            /\ (@Raise unit e0 = Return tt ->
                conversation_history (World [] file0 0) = fresh
                \/ exists text,
                     file0 = Some text
                     /\ loads (strip text)
                        = Return (VList (conversation_history
                                           (World [] file0 0)))
                     /\ headed_by_system
                          (conversation_history (World [] file0 0)) = true)
            /\ (forall e, @Raise unit e0 = Raise e ->
                   conversation_history (World [] file0 0) = [])).
  { intros file0 e0. split; [reflexivity | split; [reflexivity | split]].
    - intros R. discriminate R.
    - intros e _. reflexivity. }
  destruct file as [text |]; simpl.
  - destruct (nonempty (strip text)).
    + unfold seq, lift.
      destruct (loads (strip text)) as [v | e] eqn:Hl.
      * destruct v as [| b0 | z | f | s0 | l | d0];
          try (intros H; inversion H; subst; apply F).
        destruct l as [| first rest];
          [intros H; inversion H; subst; apply F |].
        destruct first as [| | | | | | d]; simpl;
          try (intros H; inversion H; subst; apply G).
        destruct (eq_str _ (u "system")) eqn:E;
          intros H; inversion H; subst; [| apply F].
        split; [reflexivity | split; [reflexivity | split]].
        -- intros _. right. exists text.
           split; [reflexivity |]. split; [exact Hl | exact E].
        -- intros e R. discriminate R.
      * simpl. destruct (exn_eqb e JSONDecodeError || _);
          intros H; inversion H; subst; [apply F | apply G].
    + intros H; inversion H; subst. apply F.
  - intros H; inversion H; subst. apply F.
Qed.

Lemma startup_outcomes_witness :
  chatlog (snd (startup (Some (q "[{'role': 'system'}, 7]"))))
  = Some (q "[{'role': 'system'}, 7]")
  /\ writes (snd (startup (Some (q "[{'role': 'system'}, 7]")))) = 0%nat
  /\ (fst (startup (Some (q "[{'role': 'system'}, 7]"))) = Return tt ->
      conversation_history
        (snd (startup (Some (q "[{'role': 'system'}, 7]")))) = fresh
      \/ exists text,
           Some (q "[{'role': 'system'}, 7]") = Some text
           /\ loads (strip text)
              = Return (VList (conversation_history
                  (snd (startup (Some (q "[{'role': 'system'}, 7]"))))))
           /\ headed_by_system
                (conversation_history
                   (snd (startup (Some (q "[{'role': 'system'}, 7]")))))
              = true)
  /\ (forall e,
        fst (startup (Some (q "[{'role': 'system'}, 7]"))) = Raise e ->
        conversation_history
          (snd (startup (Some (q "[{'role': 'system'}, 7]")))) = []).
Proof.
  apply (@startup_outcomes (Some (q "[{'role': 'system'}, 7]")) _ _).
  apply surjective_pairing.
Defined.

End Restart.

(* ================================================================== *)
(** ** A call that commits nothing *)

Module Exchange.

Import Text Py Json Main Spec.

Local Open Scope Z_scope.

Lemma well_formed_app (c : list Turn) (l : list Turn) :
  well_formed c -> well_formed (c ++ l).
Proof. destruct c; [intros [] | trivial]. Qed.

(** X7.  A user turn that no commit followed is lost on restart: when the
    file agreed with a history of turns before the call and the call left
    only the user turn behind (a failed buffered call, or a streamed call
    whose generator has not committed), the file is as it was, and the
    import of the module from it restores the history without that user
    turn. *)
Theorem uncommitted_turn_lost_on_restart (c : list Turn)
  (request : ChatRequest) (ollama : backend) (w : world)
  (r : result response) :
  well_formed c ->
  conversation_history w = map of_turn c ->
  in_sync w ->
  chat request ollama w = (r, user_turn_only w (message request)) ->
  startup (chatlog (snd (chat request ollama w)))
  = (Return tt, World (conversation_history w) (chatlog w) 0)
  /\ conversation_history (snd (chat request ollama w))
     = conversation_history w
       ++ [turn (u "user") (VStr (message request))].
Proof.
  intros Hwf Hh Hsync H. rewrite H.
  cbn [snd user_turn_only chatlog conversation_history].
  split; [| reflexivity].
  rewrite Hsync, Hh. apply Restart.startup_dump_turns, Hwf.
Qed.

Lemma uncommitted_turn_lost_on_restart_witness :
  startup
    (chatlog
       (snd (chat {| message := u "Hi"; stream := Some false |}
                  {| post := TimedOut; aiter_bytes := [] |}
                  (World fresh (Some (dump (VList fresh))) 1))))
  = (Return tt, World fresh (Some (dump (VList fresh))) 0)
  /\ conversation_history
       (snd (chat {| message := u "Hi"; stream := Some false |}
                  {| post := TimedOut; aiter_bytes := [] |}
                  (World fresh (Some (dump (VList fresh))) 1)))
     = fresh ++ [turn (u "user") (VStr (u "Hi"))].
Proof.
  apply (@uncommitted_turn_lost_on_restart
           [{| turn_role := system; turn_content := SYSTEM_PROMPT |}]
           {| message := u "Hi"; stream := Some false |}
           {| post := TimedOut; aiter_bytes := [] |}
           (World fresh (Some (dump (VList fresh))) 1)
           (Raise TimeoutException));
    reflexivity.
Defined.

End Exchange.

(* ================================================================== *)
(** ** The relay loop, chunk by chunk *)

Module RelayFacts.

Import Text Py Json Main Spec.

Lemma history_of_chunk_raises (text full : str) (e : exn) :
  history_of_chunk text full = Raise e ->
  e = AttributeError \/ e = TypeError.
Proof.
  unfold history_of_chunk, try_except.
  destruct (nonempty (strip text)); [| discriminate].
  destruct (loads (strip text)) as [v | e0] eqn:Hl.
  - destruct v as [| | | | | | d]; simpl;
      try (intros H; inversion H; auto; fail).
    destruct (lookup (u "message") d) as [m |]; simpl; [| discriminate].
    destruct m as [| | | | | | md]; simpl;
      try (intros H; inversion H; auto; fail).
    destruct (lookup (u "content") md) as [c |]; simpl; [| discriminate].
    destruct c as [| [|] | z | f | c | l | cd]; simpl;
      try discriminate; try (intros H; inversion H; auto; fail).
    + destruct (negb (z =? 0)%Z); simpl;
        [intros H; inversion H; auto | discriminate].
    + destruct f; simpl; try discriminate; intros H; inversion H; auto.
    + destruct c; simpl; discriminate.
    + destruct l; simpl; [discriminate | intros H; inversion H; auto].
    + destruct cd; simpl; [discriminate | intros H; inversion H; auto].
  - rewrite (Stream.loads_raises _ Hl). simpl. discriminate.
Qed.

(** X12.  Chunks without JSON text do not disturb the relay.  An empty chunk
    is passed over without a trace; a chunk of whitespace only (a bare line
    break, say) is forwarded and leaves the accumulator as it was; in both
    cases the loop goes on with the later chunks. *)
Theorem blank_chunks_harmless (chunk : bytes) (later : list bytes)
  (full : str) :
  relay ([] :: later) full = relay later full
  /\ forall text,
       chunk <> [] ->
       decode_utf8 chunk = Some text ->
       strip text = [] ->
       relay (chunk :: later) full
       = (text :: fst (relay later full), snd (relay later full)).
Proof.
  split; [reflexivity |].
  intros text Hne Hd Hs. simpl.
  destruct chunk; [contradiction |]. cbn [nonempty]. cbv iota.
  rewrite Hd. unfold history_of_chunk. rewrite Hs. simpl.
  destruct (relay later full). reflexivity.
Qed.

Lemma blank_chunks_harmless_witness :
  relay ([x0a] :: hello_world) []
  = ([10%N] :: fst (relay hello_world []), snd (relay hello_world [])).
Proof.
  apply (proj2 (blank_chunks_harmless [x0a] hello_world []) [10%N]).
  - discriminate.
  - reflexivity.
  - reflexivity.
Defined.

Lemma relay_unparsable (chunks : list bytes) :
  Forall unparsable chunks ->
  forall full, relay chunks full = (decoded chunks, Return full).
Proof.
  induction 1 as [| chunk later [Hne [text [Hd Hl]]] _ IH]; intros full.
  - reflexivity.
  - cbn [relay]. destruct chunk; [contradiction |]. cbn [nonempty]. cbv iota.
    rewrite Hd, (Stream.history_of_chunk_unparsable _ full Hl), IH.
    unfold decoded. cbn [map]. rewrite Hd. reflexivity.
Qed.

(** X13.  When no chunk parses on its own (each is a piece of a line the
    transport cut, for instance), every chunk is still forwarded, the
    generator returns normally, and it commits nothing: no assistant turn,
    no write.  The reply the caller saw is not in the history. *)
Theorem unparsable_stream_commits_nothing (chunks : list bytes) (w : world) :
  Forall unparsable chunks ->
  stream_generator chunks w = (decoded chunks, Return tt, w).
Proof.
  intros H. unfold stream_generator. rewrite (relay_unparsable H []).
  reflexivity.
Qed.

Lemma unparsable_stream_commits_nothing_witness :
  stream_generator hello_halves (World fresh None 0)
  = (decoded hello_halves, Return tt, World fresh None 0).
Proof.
  apply (@unparsable_stream_commits_nothing hello_halves (World fresh None 0)).
  constructor; [| constructor; [| constructor]].
  - split; [discriminate |].
    exists (firstn 20
              (q "{'message': {'role': 'assistant', 'content': 'Hello '}}")).
    split; vm_compute; reflexivity.
  - split; [discriminate |].
    exists (skipn 20
              (q "{'message': {'role': 'assistant', 'content': 'Hello '}}")
            ++ [10%N]).
    split; vm_compute; reflexivity.
Defined.

(** X14.  Two more shapes of chunk end the relay, after the chunk itself was
    forwarded: an object whose message is not an object raises
    AttributeError, and a message whose content is truthy but not a string
    (a non-zero number, true, a non-empty list or object) raises
    TypeError. *)
Theorem relay_aborted_by_wrong_types (chunk : bytes) (later : list bytes)
  (text full : str) (d : list (str * value)) :
  decode_utf8 chunk = Some text ->
  loads (strip text) = Return (VDict d) ->
  (forall m, lookup (u "message") d = Some m -> (forall md, m <> VDict md) ->
     relay (chunk :: later) full = ([text], Raise AttributeError))
  /\ (forall md c, lookup (u "message") d = Some (VDict md) ->
        lookup (u "content") md = Some c ->
        truthy c = true -> (forall s, c <> VStr s) ->
        relay (chunk :: later) full = ([text], Raise TypeError)).
Proof.
  intros Hd Hl.
  assert (Hs : nonempty (strip text) = true).
  { destruct (strip text); [discriminate Hl | reflexivity]. }
  assert (Hc : nonempty chunk = true).
  { destruct chunk; [| reflexivity].
    simpl in Hd. inversion Hd; subst. discriminate Hs. }
  split.
  - intros m Hm Hn. simpl. rewrite Hc, Hd.
    unfold history_of_chunk. rewrite Hs, Hl. simpl. rewrite Hm.
    destruct m; try reflexivity. destruct (Hn d0 eq_refl).
  - intros md c Hm Hk Ht Hn. simpl. rewrite Hc, Hd.
    unfold history_of_chunk. rewrite Hs, Hl. simpl. rewrite Hm. simpl.
    rewrite Hk, Ht. simpl.
    destruct c; try reflexivity. destruct (Hn s eq_refl).
Qed.

Lemma relay_aborted_by_wrong_types_witness :
  relay [qb "{'message':'Hi'}"; qb "{'message':{'content':'Hi'}}"] []
  = ([q "{'message':'Hi'}"], Raise AttributeError)
  /\ relay [qb "{'message':{'content':42}}";
            qb "{'message':{'content':'Hi'}}"] []
     = ([q "{'message':{'content':42}}"], Raise TypeError).
Proof.
  split.
  - apply (proj1 (@relay_aborted_by_wrong_types
                    (qb "{'message':'Hi'}")
                    [qb "{'message':{'content':'Hi'}}"]
                    (q "{'message':'Hi'}") []
                    [(u "message", VStr (u "Hi"))]
                    eq_refl eq_refl) (VStr (u "Hi"))).
    + reflexivity.
    + intros md. discriminate.
  - apply (proj2 (@relay_aborted_by_wrong_types
                    (qb "{'message':{'content':42}}")
                    [qb "{'message':{'content':'Hi'}}"]
                    (q "{'message':{'content':42}}") []
                    [(u "message", VDict [(u "content", VInt 42)])]
                    eq_refl eq_refl)
                 [(u "content", VInt 42)] (VInt 42)).
    + reflexivity.
    + reflexivity.
    + reflexivity.
    + intros s. discriminate.
Defined.

(** X15.  The loop composes over batches of chunks: running it over two
    batches in a row is running it over the first and, if that one ends
    without an exception, over the second from the accumulator reached; an
    exception in the first batch hides the second altogether. *)
Theorem relay_app (first second : list bytes) :
  forall (full : str) (yielded : list str),
    (forall full1,
       relay first full = (yielded, Return full1) ->
       relay (first ++ second) full
       = (yielded ++ fst (relay second full1), snd (relay second full1)))
    /\ (forall e,
          relay first full = (yielded, Raise e) ->
          relay (first ++ second) full = (yielded, Raise e)).
Proof.
  induction first as [| chunk later IH]; intros full yielded.
  - split.
    + intros full1 H. simpl in H. inversion H; subst. simpl.
      destruct (relay second full1). reflexivity.
    + intros e H. discriminate H.
  - cbn [app relay].
    destruct (nonempty chunk); [| apply IH].
    destruct (decode_utf8 chunk) as [text |];
      [| split; [discriminate | intros e H; exact H]].
    destruct (history_of_chunk text full) as [full0 | e0];
      [| split; [discriminate | intros e H; exact H]].
    destruct (relay later full0) as [ys r] eqn:Hr.
    split.
    + intros full1 H. inversion H; subst.
      rewrite (proj1 (IH full0 ys) full1 Hr). reflexivity.
    + intros e H. inversion H; subst.
      rewrite (proj2 (IH full0 ys) e Hr). reflexivity.
Qed.

Lemma relay_app_witness :
  relay ([qb "{'message':{'content':'Hello '}}"]
         ++ [qb "{'message':{'content':'World'}}"]) []
  = ([q "{'message':{'content':'Hello '}}"]
     ++ fst (relay [qb "{'message':{'content':'World'}}"] (u "Hello ")),
     snd (relay [qb "{'message':{'content':'World'}}"] (u "Hello "))).
Proof.
  apply (proj1 (relay_app [qb "{'message':{'content':'Hello '}}"]
                          [qb "{'message':{'content':'World'}}"] []
                          [q "{'message':{'content':'Hello '}}"])
               (u "Hello ")).
  vm_compute. reflexivity.
Defined.

End RelayFacts.

(* ================================================================== *)
(** ** Decoding and what the caller receives *)

Module Forwarding.

Import Text Py Json Main Spec.

Local Open Scope N_scope.

Lemma option_map_cons_some (c : char) (x : option str) (t : str) :
  option_map (cons c) x = Some t -> exists t', x = Some t' /\ t = c :: t'.
Proof.
  destruct x as [t' |]; simpl; [| discriminate].
  intros H; inversion H. eauto.
Qed.

Lemma option_map_cons_app (c : char) (t : str) (x : option str) :
  option_map (cons c) (option_map (app t) x) = option_map (app (c :: t)) x.
Proof. destruct x; reflexivity. Qed.

Ltac decode_case H IH b :=
  apply option_map_cons_some in H; destruct H as [t' [H ->]];
  rewrite (IH _ _ H b) by (cbn [List.length] in *; lia);
  apply option_map_cons_app.

(** Decoding distributes over a cut that falls between two characters. *)
Lemma decode_utf8_app :
  forall (n : nat) (a : bytes) (ta : str),
    (List.length a <= n)%nat ->
    decode_utf8 a = Some ta ->
    forall b, decode_utf8 (a ++ b) = option_map (app ta) (decode_utf8 b).
Proof.
  induction n as [| n IH]; intros a ta Hn H b.
  - destruct a; [| simpl in Hn; lia].
    simpl in H. inversion H; subst. cbn [app].
    destruct (decode_utf8 b); reflexivity.
  - destruct a as [| b0 r0].
    { simpl in H. inversion H; subst. cbn [app].
      destruct (decode_utf8 b); reflexivity. }
    assert (IH' : forall (a : bytes) (ta : str),
               decode_utf8 a = Some ta ->
               forall b, (List.length a <= n)%nat ->
               decode_utf8 (a ++ b) = option_map (app ta) (decode_utf8 b)).
    { intros a0 ta0 H0 b1 L. apply (IH a0 ta0 L H0). }
    cbn [List.length] in Hn.
    cbn [app]. cbn [decode_utf8] in H |- *.
    destruct (Byte.to_N b0 <? 128); [decode_case H IH' b |].
    destruct r0 as [| b1 r1]; [discriminate H |].
    cbn [app].
    destruct (between 194 (Byte.to_N b0) 223).
    { destruct (cont (Byte.to_N b1)); [decode_case H IH' b | discriminate H]. }
    destruct r1 as [| b2 r2]; [discriminate H |].
    cbn [app].
    destruct (between 224 (Byte.to_N b0) 239).
    { destruct ((if Byte.to_N b0 =? 224 then between 160 (Byte.to_N b1) 191
                 else if Byte.to_N b0 =? 237
                      then between 128 (Byte.to_N b1) 159
                      else cont (Byte.to_N b1)) && cont (Byte.to_N b2));
        [decode_case H IH' b | discriminate H]. }
    destruct r2 as [| b3 r3]; [discriminate H |].
    cbn [app].
    destruct (between 240 (Byte.to_N b0) 244); [| discriminate H].
    destruct ((if Byte.to_N b0 =? 240 then between 144 (Byte.to_N b1) 191
               else if Byte.to_N b0 =? 244
                    then between 128 (Byte.to_N b1) 143
                    else cont (Byte.to_N b1))
              && cont (Byte.to_N b2) && cont (Byte.to_N b3));
      [decode_case H IH' b | discriminate H].
Qed.

(** X16.  What the caller receives is the text the backend sent: when the
    loop reaches the end of the chunks, the strings it yielded, put end to
    end, are the utf-8 decoding of the bytes of all the chunks put end to
    end; nothing is dropped, altered or added. *)
Theorem forwarded_text_is_backend_text (chunks : list bytes) :
  forall (full full' : str) (yielded : list str),
    relay chunks full = (yielded, Return full') ->
    decode_utf8 (List.concat chunks) = Some (List.concat yielded).
Proof.
  induction chunks as [| chunk later IH]; intros full full' yielded H.
  - simpl in H. inversion H. reflexivity.
  - cbn [relay] in H. cbn [List.concat].
    destruct (nonempty chunk) eqn:Hne.
    + destruct (decode_utf8 chunk) as [text |] eqn:Hd; [| discriminate H].
      destruct (history_of_chunk text full) as [full1 | e];
        [| discriminate H].
      destruct (relay later full1) as [ys r] eqn:Hr. inversion H; subst.
      rewrite (decode_utf8_app (n := List.length chunk) chunk
                 (Nat.le_refl _) Hd).
      rewrite (IH full1 full' ys Hr). reflexivity.
    + destruct chunk; [| discriminate Hne]. cbn [app].
      apply (IH full full' yielded H).
Qed.

Lemma forwarded_text_is_backend_text_witness :
  decode_utf8 (List.concat hello_world) = Some (List.concat (decoded hello_world)).
Proof.
  apply (@forwarded_text_is_backend_text hello_world [] (u "Hello World")
           (decoded hello_world)).
  vm_compute. reflexivity.
Defined.

Lemma decode_utf8_nonempty (chunk : bytes) (text : str) :
  chunk <> [] -> decode_utf8 chunk = Some text -> text <> [].
Proof.
  destruct chunk as [| b0 r0]; [contradiction |]. intros _ H.
  assert (C : forall c x, option_map (cons c) x = Some text -> text <> []).
  { intros c x E. apply option_map_cons_some in E.
    destruct E as [t' [_ ->]]. discriminate. }
  cbn [decode_utf8] in H.
  destruct (Byte.to_N b0 <? 128); [apply (C _ _ H) |].
  destruct r0 as [| b1 r1]; [discriminate H |].
  destruct (between 194 (Byte.to_N b0) 223).
  { destruct (cont (Byte.to_N b1)); [apply (C _ _ H) | discriminate H]. }
  destruct r1 as [| b2 r2]; [discriminate H |].
  destruct (between 224 (Byte.to_N b0) 239).
  { destruct ((if Byte.to_N b0 =? 224 then between 160 (Byte.to_N b1) 191
               else if Byte.to_N b0 =? 237
                    then between 128 (Byte.to_N b1) 159
                    else cont (Byte.to_N b1)) && cont (Byte.to_N b2));
      [apply (C _ _ H) | discriminate H]. }
  destruct r2 as [| b3 r3]; [discriminate H |].
  destruct (between 240 (Byte.to_N b0) 244); [| discriminate H].
  destruct ((if Byte.to_N b0 =? 240 then between 144 (Byte.to_N b1) 191
             else if Byte.to_N b0 =? 244
                  then between 128 (Byte.to_N b1) 143
                  else cont (Byte.to_N b1))
            && cont (Byte.to_N b2) && cont (Byte.to_N b3));
    [apply (C _ _ H) | discriminate H].
Qed.

(** X11.  Whether the loop ends or raises, what it has yielded is, string
    by string, the utf-8 decoding of an initial part of the non-empty
    chunks, in arrival order: it never reorders, repeats or alters a chunk,
    and no string it yields is empty. *)
Theorem relay_yields_prefix (chunks : list bytes) :
  forall (full : str) (yielded : list str) (r : result str),
    relay chunks full = (yielded, r) ->
    exists k,
      Forall2 (fun chunk text => decode_utf8 chunk = Some text)
              (firstn k (filter nonempty chunks)) yielded
      /\ Forall (fun text => text <> []) yielded.
Proof.
  induction chunks as [| chunk later IH]; intros full yielded r H.
  - simpl in H. inversion H. exists 0%nat. split; constructor.
  - simpl in H. cbn [filter]. destruct (nonempty chunk) eqn:Hne.
    + assert (Hc : chunk <> []) by (intros ->; discriminate Hne).
      destruct (decode_utf8 chunk) as [text |] eqn:Hd.
      * pose proof (decode_utf8_nonempty Hc Hd) as Ht.
        destruct (history_of_chunk text full) as [full1 | e1].
        -- destruct (relay later full1) as [ys r1] eqn:Hr.
           inversion H; subst.
           destruct (IH full1 ys r Hr) as [k [F N]].
           exists (S k). cbn [firstn]. split; constructor; assumption.
        -- inversion H; subst. exists 1%nat. cbn [firstn].
           split; repeat constructor; assumption.
      * inversion H; subst. exists 0%nat. split; constructor.
    + apply (IH full yielded r H).
Qed.

Lemma relay_yields_prefix_witness :
  exists k,
    Forall2 (fun chunk text => decode_utf8 chunk = Some text)
            (firstn k (filter nonempty list_then_line))
            [q "[1]" ++ [10]]
    /\ Forall (fun text => text <> []) [q "[1]" ++ [10]].
Proof.
  apply (@relay_yields_prefix list_then_line [] [q "[1]" ++ [10]]
           (Raise AttributeError)).
  vm_compute. reflexivity.
Defined.

Lemma decode_ascii (bs : bytes) :
  Forall (fun x => Byte.to_N x < 128) bs ->
  decode_utf8 bs = Some (map Byte.to_N bs).
Proof.
  induction 1 as [| b0 r0 H0 _ IH]; [reflexivity |].
  cbn [decode_utf8 map].
  apply N.ltb_lt in H0. rewrite H0, IH. reflexivity.
Qed.

(** X17.  A backend that sends ASCII only never makes the relay raise
    UnicodeDecodeError: whatever the cuts between the chunks, each chunk
    decodes, and what the loop yields is an initial part of the non-empty
    chunks, each byte as the character of the same number. *)
Theorem ascii_chunks_always_decode (chunks : list bytes) :
  Forall (Forall (fun x => Byte.to_N x < 128)) chunks ->
  forall (full : str) (yielded : list str) (r : result str),
    relay chunks full = (yielded, r) ->
    r <> Raise UnicodeDecodeError
    /\ exists k, yielded
                 = map (map Byte.to_N) (firstn k (filter nonempty chunks)).
Proof.
  induction 1 as [| chunk later Hc _ IH]; intros full yielded r H.
  - simpl in H. inversion H. split; [discriminate |].
    exists 0%nat. reflexivity.
  - cbn [relay] in H. cbn [filter]. destruct (nonempty chunk).
    + rewrite (decode_ascii Hc) in H.
      destruct (history_of_chunk (map Byte.to_N chunk) full)
        as [full1 | e1] eqn:Hh.
      * destruct (relay later full1) as [ys r1] eqn:Hr.
        inversion H; subst.
        destruct (IH full1 ys r Hr) as [Hn [k ->]].
        split; [exact Hn |]. exists (S k). reflexivity.
      * inversion H; subst. split.
        -- destruct (RelayFacts.history_of_chunk_raises _ _ Hh) as [-> | ->];
             discriminate.
        -- exists 1%nat. destruct (filter nonempty later); reflexivity.
    + apply (IH full yielded r H).
Qed.

Lemma ascii_chunks_always_decode_witness :
  snd (relay [firstn 20 (qb "{'message':{'content':'Hi'}}");
              skipn 20 (qb "{'message':{'content':'Hi'}}")] [])
  <> Raise UnicodeDecodeError
  /\ exists k,
       fst (relay [firstn 20 (qb "{'message':{'content':'Hi'}}");
                   skipn 20 (qb "{'message':{'content':'Hi'}}")] [])
       = map (map Byte.to_N)
             (firstn k (filter nonempty
                [firstn 20 (qb "{'message':{'content':'Hi'}}");
                 skipn 20 (qb "{'message':{'content':'Hi'}}")])).
Proof.
  apply (fun F => @ascii_chunks_always_decode
                    [firstn 20 (qb "{'message':{'content':'Hi'}}");
                     skipn 20 (qb "{'message':{'content':'Hi'}}")]
                    F [] _ _ (surjective_pairing _)).
  repeat (constructor; [vm_compute; repeat constructor |]). constructor.
Defined.

End Forwarding.

(* ================================================================== *)
(** ** Facts about the write *)

Module StorageFacts.

Import Text Py Json Main Spec Storage.

Local Open Scope N_scope.

Lemma atom_encode (o : value) (text : str) (level : nat) :
  atom o = Some text -> encode level o = text.
Proof.
  destruct o as [| [|] | z | f | s | l | d]; simpl; intros H;
    inversion H; reflexivity.
Qed.

Lemma concat_iterencode :
  forall (o : value) (level : nat),
    List.concat (iterencode level o) = encode level o.
Proof.
  fix IH 1. intros o level.
  destruct o as [| [|] | z | f | s | l | d];
    try (cbn [iterencode atom List.concat encode]; apply app_nil_r).
  - destruct l as [| v vs]; [reflexivity |].
    cbn [iterencode encode]. rewrite !concat_app.
    assert (E : forall buf x,
               List.concat (iterencode (S level) x) = encode (S level) x ->
               List.concat (match atom x with
                            | Some text => [buf ++ text]
                            | None => buf :: iterencode (S level) x
                            end) = buf ++ encode (S level) x).
    { intros buf x Hx. destruct (atom x) as [text |] eqn:Ha.
      - rewrite (atom_encode x (S level) Ha). cbn. apply app_nil_r.
      - cbn [List.concat]. rewrite Hx. reflexivity. }
    rewrite (E _ v (IH v (S level))).
    assert (F : List.concat
                  (flat_map (fun x => match atom x with
                                      | Some text =>
                                        [([44] ++ newline_indent (S level)) ++ text]
                                      | None =>
                                        ([44] ++ newline_indent (S level))
                                        :: iterencode (S level) x
                                      end) vs)
                = flat_map (fun x => [44] ++ newline_indent (S level)
                                     ++ encode (S level) x) vs).
    { clear v. revert vs. fix IHl 1. intros [| x vs]; [reflexivity |].
      cbn [flat_map]. rewrite concat_app, (E _ x (IH x (S level))), (IHl vs).
      repeat rewrite <- app_assoc. reflexivity. }
    rewrite F. cbn [List.concat]. rewrite app_nil_r.
    repeat rewrite <- app_assoc. reflexivity.
  - destruct d as [| [k v] kvs]; [reflexivity |].
    cbn [iterencode encode]. rewrite !concat_app, (IH v (S level)).
    assert (F : List.concat
                  (flat_map (fun kx => [[44] ++ newline_indent (S level);
                                        encode_basestring (fst kx); [58; 32]]
                                       ++ iterencode (S level) (snd kx)) kvs)
                = flat_map (fun kx => [44] ++ newline_indent (S level)
                                      ++ encode_basestring (fst kx) ++ [58; 32]
                                      ++ encode (S level) (snd kx)) kvs).
    { clear k v. revert kvs. fix IHl 1. intros [| [k x] kvs]; [reflexivity |].
      cbn [flat_map fst snd]. rewrite concat_app, (IHl kvs).
      cbn [List.concat app]. rewrite (IH x (S level)).
      repeat rewrite <- app_assoc. reflexivity. }
    rewrite F. cbn [List.concat app]. rewrite ?app_nil_r.
    repeat rewrite <- app_assoc. reflexivity.
Qed.

(** *** The write loop *)

Lemma write_chunks_all (chunks : list str) :
  forallb encodable chunks = true ->
  forall file,
    write_chunks chunks file = (Return tt, file ++ List.concat chunks).
Proof.
  induction chunks as [| chunk later IH]; intros H file.
  - cbn. rewrite app_nil_r. reflexivity.
  - cbn [forallb] in H. apply andb_prop in H. destruct H as [Hc Hl].
    cbn [write_chunks List.concat]. rewrite Hc, (IH Hl), app_assoc.
    reflexivity.
Qed.

Lemma write_chunks_refused (chunks : list str) :
  forallb encodable chunks = false ->
  forall file, fst (write_chunks chunks file) = Raise UnicodeEncodeError.
Proof.
  induction chunks as [| chunk later IH]; intros H file.
  - discriminate H.
  - cbn [forallb] in H. cbn [write_chunks].
    destruct (encodable chunk); [apply IH, H | reflexivity].
Qed.

(** A write that the codec stops leaves less in the file than the text of
    the history. *)
Lemma write_chunks_short (chunks : list str) :
  forall file e text,
    write_chunks chunks file = (Raise e, text) ->
    (List.length text < List.length (file ++ List.concat chunks))%nat.
Proof.
  induction chunks as [| chunk later IH]; intros file e text H.
  - discriminate H.
  - cbn [write_chunks] in H. cbn [List.concat].
    destruct (encodable chunk) eqn:E.
    + rewrite app_assoc. apply (IH _ e text H).
    + inversion H; subst. destruct chunk as [| ch chunk]; [discriminate E |].
      rewrite !length_app. cbn [List.length]. lia.
Qed.

(** Where utf-8 encodes the text of the history, the write is the one of
    [Main]: the file holds the whole text. *)
Lemma save_storable (w : world) :
  storable (conversation_history w) = true ->
  Storage.save_history_to_file w = Main.save_history_to_file w.
Proof.
  intros H. unfold Storage.save_history_to_file, Main.save_history_to_file.
  rewrite (write_chunks_all _ H). cbn [app].
  rewrite concat_iterencode. reflexivity.
Qed.

(** Where it does not, the write raises and leaves the file cut. *)
Lemma save_unstorable (w : world) :
  storable (conversation_history w) = false ->
  Storage.save_history_to_file w
  = (Raise UnicodeEncodeError,
     World (conversation_history w) (Some (cut (conversation_history w)))
           (writes w)).
Proof.
  intros H. unfold Storage.save_history_to_file, cut.
  pose proof (write_chunks_refused _ H []) as R.
  destruct (write_chunks _ _) as [r text]. cbn [fst snd] in *.
  rewrite R. reflexivity.
Qed.

(** *** Text that utf-8 encodes stays so on its way to the file *)

Lemma encodable_app (a b : str) :
  encodable (a ++ b) = encodable a && encodable b.
Proof. apply forallb_app. Qed.

Lemma encodable_newline_indent (k : nat) : encodable (newline_indent k) = true.
Proof.
  unfold newline_indent. cbn [encodable forallb].
  induction (2 * k)%nat as [| n IH]; [reflexivity | exact IH].
Qed.

Lemma encodable_control (n : nat) :
  (n < 32)%nat -> encodable (escape_char (N.of_nat n)) = true.
Proof.
  intros H. do 32 (destruct n as [| n]; [reflexivity |]). lia.
Qed.

Lemma encodable_escape_char (c : char) :
  scalar c = true -> encodable (escape_char c) = true.
Proof.
  intros H. destruct (c <? 32) eqn:Hc.
  - apply N.ltb_lt in Hc. rewrite <- (N2Nat.id c).
    apply encodable_control. lia.
  - unfold escape_char. rewrite Hc.
    repeat match goal with
           | |- context [c =? ?k] => destruct (c =? k); [reflexivity |]
           end.
    cbn [encodable forallb]. rewrite H. reflexivity.
Qed.

Lemma encodable_basestring (s : str) :
  encodable s = true -> encodable (encode_basestring s) = true.
Proof.
  intros H. unfold encode_basestring.
  change (34 :: flat_map escape_char s ++ [34])
    with ([34] ++ flat_map escape_char s ++ [34]).
  rewrite !encodable_app.
  assert (E : encodable (flat_map escape_char s) = true).
  { induction s as [| c s IH]; [reflexivity |].
    cbn [encodable forallb] in H. apply andb_prop in H. destruct H as [Hc Hs].
    cbn [flat_map]. rewrite encodable_app, (encodable_escape_char c Hc).
    apply IH, Hs. }
  rewrite E. reflexivity.
Qed.

Lemma encodable_role_name (r : role) : encodable (role_name r) = true.
Proof. destruct r; reflexivity. Qed.

(** The chunks of one turn. *)
Lemma iterencode_turn (role content : str) :
  iterencode 1 (turn role (VStr content))
  = [[123]; newline_indent 2; encode_basestring (u "role"); [58; 32];
     encode_basestring role; [44] ++ newline_indent 2;
     encode_basestring (u "content"); [58; 32]; encode_basestring content;
     newline_indent 1; [125]].
Proof. reflexivity. Qed.

Lemma turn_chunks_encodable (t : Turn) :
  encodable (turn_content t) = true ->
  forallb encodable (iterencode 1 (of_turn t)) = true.
Proof.
  intros H. unfold of_turn. rewrite iterencode_turn. cbn [forallb].
  rewrite encodable_app, !encodable_newline_indent.
  rewrite (encodable_basestring (u "role") eq_refl).
  rewrite (encodable_basestring (u "content") eq_refl).
  rewrite (encodable_basestring _ (encodable_role_name (turn_role t))).
  rewrite (encodable_basestring _ H). reflexivity.
Qed.

(** A history of turns whose texts utf-8 encodes can be written. *)
Lemma turns_storable (c : list Turn) :
  encodable_turns c -> storable (map of_turn c) = true.
Proof.
  intros H. unfold storable. destruct H as [| t ts Ht Hts]; [reflexivity |].
  cbn [map]. cbn [iterencode]. change (atom (of_turn t)) with (@None str).
  cbv iota. rewrite forallb_app. cbn [forallb].
  rewrite encodable_app, encodable_newline_indent.
  change (encodable [91]) with true. cbn [andb].
  rewrite (turn_chunks_encodable t Ht). cbn [andb].
  rewrite forallb_app. cbn [forallb andb].
  rewrite encodable_newline_indent. cbn [andb].
  change (encodable [93]) with true. rewrite !andb_true_r.
  induction Hts as [| x xs Hx _ IH]; [reflexivity |].
  cbn [map flat_map]. change (atom (of_turn x)) with (@None str). cbv iota.
  rewrite forallb_app. cbn [forallb].
  rewrite encodable_app, encodable_newline_indent.
  change (encodable [44]) with true. cbn [andb].
  rewrite (turn_chunks_encodable x Hx). exact IH.
Qed.

Lemma encodable_turns_app (c l : list Turn) :
  encodable_turns c -> encodable_turns l -> encodable_turns (c ++ l).
Proof. intros Hc Hl. apply Forall_app. split; assumption. Qed.

(** *** The endpoints over the two files *)

(** A buffered call that commits nothing does not depend on the file. *)
Lemma chat_without_commit (request : ChatRequest) (ollama : backend)
  (w : world) (r : result response) :
  wants_stream request = false ->
  Main.chat request ollama w = (r, user_turn_only w (message request)) ->
  Storage.chat request ollama w = (r, user_turn_only w (message request)).
Proof.
  intros Hs. unfold Main.chat, Storage.chat, seq, append_history, lift, ret,
    raise, user_turn_only.
  rewrite Hs. destruct (post ollama) as [| s text]; [trivial |].
  destruct (s =? 200)%Z; [| trivial].
  destruct (loads text) as [v | e]; [| trivial].
  destruct (getitem v (u "message")) as [m | e]; [| trivial].
  destruct (getitem m (u "content")) as [c | e]; [| trivial].
  unfold Main.save_history_to_file. cbn [writes].
  intros H. inversion H as [[Hr Hh Hf Hw]]. exfalso.
  apply (n_Sn (writes w)). symmetry. exact Hw.
Qed.

(** A buffered call answered 200 with a message.content: both turns are
    appended, then the history is written. *)
Lemma chat_200_writes (request : ChatRequest) (ollama : backend) (w : world)
  (text : str) (d m : list (str * value)) (reply : value) :
  wants_stream request = false ->
  post ollama = Responded 200 text ->
  loads text = Return (VDict d) ->
  lookup (u "message") d = Some (VDict m) ->
  lookup (u "content") m = Some reply ->
  let h := conversation_history w
           ++ [turn (u "user") (VStr (message request));
               turn (u "assistant") reply] in
  Storage.chat request ollama w
  = if storable h
    then (Return (JSONBody (VDict [(u "response", reply)])),
          committed w (message request) reply)
    else (Raise UnicodeEncodeError, World h (Some (cut h)) (writes w)).
Proof.
  intros Hs Hp Hl Hm Hc h.
  unfold Storage.chat, seq, append_history, lift, ret.
  rewrite Hs, Hp. change (200 =? 200)%Z with true. cbv beta iota.
  rewrite Hl. unfold getitem. rewrite Hm, Hc.
  cbn [conversation_history chatlog writes].
  rewrite <- app_assoc. cbn [app]. fold h.
  destruct (storable h) eqn:E.
  - rewrite save_storable by exact E. reflexivity.
  - rewrite save_unstorable by exact E. reflexivity.
Qed.

(** The generator at the end of the chunks. *)
Lemma stream_generator_writes (chunks : list bytes) (w : world)
  (yielded : list str) (full : str) :
  relay chunks [] = (yielded, Return full) ->
  full <> [] ->
  let h := conversation_history w ++ [turn (u "assistant") (VStr full)] in
  Storage.stream_generator chunks w
  = if storable h
    then (yielded, Return tt, stream_committed w full)
    else (yielded, Raise UnicodeEncodeError,
          World h (Some (cut h)) (writes w)).
Proof.
  intros H Hne h. unfold Storage.stream_generator. rewrite H.
  destruct full as [| ch full]; [contradiction |].
  cbn [nonempty]. cbv iota. unfold seq, append_history.
  cbn [conversation_history chatlog writes]. fold h.
  destruct (storable h) eqn:E.
  - rewrite save_storable by exact E. reflexivity.
  - rewrite save_unstorable by exact E. reflexivity.
Qed.

End StorageFacts.

(* ================================================================== *)
(** ** Commits and the file: what is written, what a restart finds *)

Module Persistence.

Import Text Py Json Main Spec.

Local Open Scope Z_scope.

(** C9, as the claim states it, fails on a conversation that holds a lone
    surrogate: the write raises UnicodeEncodeError and leaves the file cut
    inside the turn, and the next import of the module, finding no JSON
    text, starts from the single system turn. *)
Lemma lone_surrogate_not_restored :
  well_formed Storage.surrogate_conversation
  /\ fst (Storage.save_history_to_file
            (World (map of_turn Storage.surrogate_conversation) None 0))
     = Raise UnicodeEncodeError
  /\ startup
       (chatlog
          (snd (Storage.save_history_to_file
                  (World (map of_turn Storage.surrogate_conversation) None 0))))
     = (Return tt,
        World fresh
          (Some (Storage.cut (map of_turn Storage.surrogate_conversation))) 0)
  /\ fresh <> map of_turn Storage.surrogate_conversation.
Proof.
  split; [reflexivity |].
  split; [vm_compute; reflexivity |].
  split; [vm_compute; reflexivity |].
  discriminate.
Qed.

(** C9, amended.  For every well-formed Turn sequence (non-empty, first role
    system) whose texts utf-8 encodes (no lone surrogate), held as the
    history: [save_history_to_file] (persist) returns, and the next import
    of the module (restore) succeeds and holds that same history, so the
    Turn sequence it stands for is the one persisted. *)
Theorem persist_restore (c : list Turn) (file : option str) (n : nat) :
  well_formed c ->
  Storage.encodable_turns c ->
  let persisted :=
    Storage.save_history_to_file (World (map of_turn c) file n) in
  fst persisted = Return tt
  /\ startup (chatlog (snd persisted))
     = (Return tt, World (map of_turn c) (chatlog (snd persisted)) 0)
  /\ forall c', map of_turn c'
                = conversation_history (snd (startup (chatlog (snd persisted)))) ->
                c' = c.
Proof.
  intros Hwf Henc persisted. subst persisted.
  rewrite StorageFacts.save_storable
    by (apply StorageFacts.turns_storable, Henc).
  unfold Main.save_history_to_file. cbn [fst snd chatlog conversation_history].
  rewrite (Restart.startup_dump_turns c Hwf).
  split; [reflexivity | split; [reflexivity |]].
  intros c' H. apply RoundTrip.of_turn_injective, H.
Qed.

Lemma persist_restore_witness :
  let persisted :=
    Storage.save_history_to_file
      (World (map of_turn sample_conversation) None 0) in
  fst persisted = Return tt
  /\ startup (chatlog (snd persisted))
     = (Return tt,
        World (map of_turn sample_conversation) (chatlog (snd persisted)) 0)
  /\ forall c', map of_turn c'
                = conversation_history (snd (startup (chatlog (snd persisted)))) ->
                c' = sample_conversation.
Proof.
  apply (@persist_restore sample_conversation None 0).
  - reflexivity.
  - repeat constructor.
Defined.

(** C1, as the claim states it, fails twice.  On a sequence with a JSON
    text that is no object before a regular line, the reconstruction is Hi,
    yet the generator has raised AttributeError at the first chunk and
    appends no assistant turn.  On a line whose content is a lone surrogate
    the assistant turn is appended, but the write raises UnicodeEncodeError:
    the history is not persisted, the file is cut short of it. *)
Lemma stream_commit_fails :
  let w := World (fresh ++ [turn (u "user") (VStr (u "Hi"))]) None 0 in
  (reconstruction list_then_line = u "Hi"
   /\ Storage.stream_generator list_then_line w
      = ([q "[1]" ++ [10%N]], Raise AttributeError, w))
  /\ (reconstruction Storage.surrogate_line = [55357%N]
      /\ fst (Storage.stream_generator Storage.surrogate_line w)
         = ([q "{'message':{'content':'\ud83d'}}" ++ [10%N]],
            Raise UnicodeEncodeError)
      /\ conversation_history
           (snd (Storage.stream_generator Storage.surrogate_line w))
         = conversation_history w
           ++ [turn (u "assistant") (VStr [55357%N])]
      /\ ~ in_sync (snd (Storage.stream_generator Storage.surrogate_line w))).
Proof.
  split; [split; vm_compute; reflexivity |].
  split; [vm_compute; reflexivity |].
  split; [vm_compute; reflexivity |].
  split; [vm_compute; reflexivity |].
  unfold in_sync. vm_compute. discriminate.
Qed.

(** C1, amended.  For every finite sequence of chunks that the loop handles
    to its end without an exception, the accumulator is the ordered
    concatenation of the message.content of the chunks that parsed as a JSON
    object with a non-empty message.content.  If it is non-empty, the
    generator appends one assistant turn with it; it then writes the file
    from the history when utf-8 encodes the text of the history, and
    otherwise raises UnicodeEncodeError, the turn appended and the file cut
    at the first chunk the codec refused.  If the accumulator is empty, the
    generator leaves the history and the file as they were, without a
    write. *)
Theorem stream_commit (chunks : list bytes) (w : world) (yielded : list str)
  (full_reply_content : str) :
  relay chunks [] = (yielded, Return full_reply_content) ->
  let h := conversation_history w
           ++ [turn (u "assistant") (VStr full_reply_content)] in
  full_reply_content = reconstruction chunks
  /\ (full_reply_content <> [] -> Storage.storable h = true ->
      Storage.stream_generator chunks w
      = (yielded, Return tt, stream_committed w full_reply_content))
  /\ (full_reply_content <> [] -> Storage.storable h = false ->
      Storage.stream_generator chunks w
      = (yielded, Raise UnicodeEncodeError,
         World h (Some (Storage.cut h)) (writes w)))
  /\ (full_reply_content = [] ->
      Storage.stream_generator chunks w = (yielded, Return tt, w)).
Proof.
  intros H h. split; [| split; [| split]].
  - apply (Stream.relay_returns chunks [] H).
  - intros Hne E.
    rewrite (StorageFacts.stream_generator_writes chunks w H Hne).
    fold h. rewrite E. reflexivity.
  - intros Hne E.
    rewrite (StorageFacts.stream_generator_writes chunks w H Hne).
    fold h. rewrite E. reflexivity.
  - intros ->. unfold Storage.stream_generator. rewrite H. reflexivity.
Qed.

Lemma stream_commit_witness :
  let w := World (fresh ++ [turn (u "user") (VStr (u "Hi stream"))]) None 0 in
  (u "Hello World" = reconstruction hello_world
   /\ Storage.stream_generator hello_world w
      = (decoded hello_world, Return tt,
         stream_committed w (u "Hello World")))
  /\ ([55357%N] = reconstruction Storage.surrogate_line
      /\ Storage.stream_generator Storage.surrogate_line w
         = (decoded Storage.surrogate_line, Raise UnicodeEncodeError,
            World (conversation_history w
                   ++ [turn (u "assistant") (VStr [55357%N])])
                  (Some (Storage.cut
                           (conversation_history w
                            ++ [turn (u "assistant") (VStr [55357%N])])))
                  0)).
Proof.
  intros w. split.
  - destruct (@stream_commit hello_world w (decoded hello_world)
                (u "Hello World")) as [A [B _]].
    + vm_compute. reflexivity.
    + split; [exact A |]. apply B; [discriminate | vm_compute; reflexivity].
  - destruct (@stream_commit Storage.surrogate_line w
                (decoded Storage.surrogate_line) [55357%N])
      as [A [_ [C _]]].
    + vm_compute. reflexivity.
    + split; [exact A |]. apply C; [discriminate | vm_compute; reflexivity].
Defined.

(** C5, as the claim states it, fails: a timeout of the request, a 200
    response without message.content, and a write that utf-8 refuses (here
    the history holds a lone surrogate from an earlier reply) each leave the
    endpoint as an exception, not as a body. *)
Lemma buffered_faults_escape :
  ~ returned_as_data
      (Storage.chat {| message := u "Hi"; stream := Some false |}
                    {| post := TimedOut; aiter_bytes := [] |}
                    (World fresh None 0))
  /\ ~ returned_as_data
         (Storage.chat
            {| message := u "Hi"; stream := Some false |}
            {| post := Responded 200 (q "{'message':{'role':'assistant'}}");
               aiter_bytes := [] |}
            (World fresh None 0))
  /\ ~ returned_as_data
         (Storage.chat
            {| message := u "Hi"; stream := Some false |}
            {| post := Responded 200 (q "{'message':{'content':'Hello there!'}}");
               aiter_bytes := [] |}
            (World (map of_turn Storage.surrogate_conversation) None 0)).
Proof.
  split; [| split]; intros [body H]; vm_compute in H; discriminate H.
Qed.

(** C5, amended.  In buffered mode a response with a status other than 200
    comes back as data: the payload {error: Error status: body}, with the
    user turn appended and nothing written.  The other failures are not
    recovered, the call raises: the timeout exception on a timeout of the
    request, KeyError on a 200 response whose JSON object lacks message or
    whose message lacks content (both after the user turn was appended, with
    no assistant turn and no write), and UnicodeEncodeError when utf-8
    refuses the text of the history at the write (the reply printed, both
    turns appended, the file cut at the first chunk refused). *)
Theorem buffered_failures (request : ChatRequest) (ollama : backend)
  (w : world) :
  wants_stream request = false ->
  (forall s body, post ollama = Responded s body -> s <> 200 ->
     Storage.chat request ollama w
     = (Return (JSONBody (VDict [(u "error",
                  VStr (u "Error " ++ int_repr s ++ u ": " ++ body))])),
        user_turn_only w (message request)))
  /\ (post ollama = TimedOut ->
      Storage.chat request ollama w
      = (Raise TimeoutException, user_turn_only w (message request)))
  /\ (forall text d,
        post ollama = Responded 200 text ->
        loads text = Return (VDict d) ->
        (lookup (u "message") d = None
         \/ exists m, lookup (u "message") d = Some (VDict m)
                      /\ lookup (u "content") m = None) ->
        Storage.chat request ollama w
        = (Raise KeyError, user_turn_only w (message request)))
  /\ (forall text d m reply,
        post ollama = Responded 200 text ->
        loads text = Return (VDict d) ->
        lookup (u "message") d = Some (VDict m) ->
        lookup (u "content") m = Some reply ->
        Storage.printable reply = true ->
        let h := conversation_history w
                 ++ [turn (u "user") (VStr (message request));
                     turn (u "assistant") reply] in
        Storage.storable h = false ->
        Storage.chat request ollama w
        = (Raise UnicodeEncodeError,
           World h (Some (Storage.cut h)) (writes w))).
Proof.
  intros Hs. split; [| split; [| split]].
  - intros s body Hp Hne. apply StorageFacts.chat_without_commit; [exact Hs |].
    apply (Buffered.chat_not_200 request ollama w Hs Hp Hne).
  - intros Hp. apply StorageFacts.chat_without_commit; [exact Hs |].
    apply (Buffered.chat_timeout request ollama w Hs Hp).
  - intros text d Hp Hl Hm. apply StorageFacts.chat_without_commit; [exact Hs |].
    apply (Buffered.chat_missing_field request ollama w Hs Hp Hl Hm).
  - intros text d m reply Hp Hl Hm Hc _ h E.
    rewrite (StorageFacts.chat_200_writes request ollama w Hs Hp Hl Hm Hc).
    fold h. rewrite E. reflexivity.
Qed.

Lemma buffered_failures_witness :
  Storage.chat {| message := u "Hi"; stream := Some false |}
               {| post := Responded 500 (u "oops"); aiter_bytes := [] |}
               (World fresh None 0)
  = (Return (JSONBody (VDict [(u "error", VStr (u "Error 500: oops"))])),
     user_turn_only (World fresh None 0) (u "Hi"))
  /\ Storage.chat {| message := u "Hi"; stream := Some false |}
                  {| post := TimedOut; aiter_bytes := [] |}
                  (World fresh None 0)
     = (Raise TimeoutException, user_turn_only (World fresh None 0) (u "Hi"))
  /\ Storage.chat
       {| message := u "Hi"; stream := Some false |}
       {| post := Responded 200 (q "{'message':{'role':'assistant'}}");
          aiter_bytes := [] |}
       (World fresh None 0)
     = (Raise KeyError, user_turn_only (World fresh None 0) (u "Hi"))
  /\ Storage.chat
       {| message := u "Hi"; stream := Some false |}
       {| post := Responded 200 (q "{'message':{'content':'Hello there!'}}");
          aiter_bytes := [] |}
       (World (map of_turn Storage.surrogate_conversation) None 0)
     = (Raise UnicodeEncodeError,
        World (map of_turn Storage.surrogate_conversation
               ++ [turn (u "user") (VStr (u "Hi"));
                   turn (u "assistant") (VStr (u "Hello there!"))])
              (Some (Storage.cut
                       (map of_turn Storage.surrogate_conversation
                        ++ [turn (u "user") (VStr (u "Hi"));
                            turn (u "assistant") (VStr (u "Hello there!"))])))
              0).
Proof.
  split; [| split; [| split]].
  - apply (proj1 (@buffered_failures
                    {| message := u "Hi"; stream := Some false |}
                    {| post := Responded 500 (u "oops"); aiter_bytes := [] |}
                    (World fresh None 0) eq_refl) 500 (u "oops")).
    + reflexivity.
    + lia.
  - apply (proj1 (proj2 (@buffered_failures
                           {| message := u "Hi"; stream := Some false |}
                           {| post := TimedOut; aiter_bytes := [] |}
                           (World fresh None 0) eq_refl))).
    reflexivity.
  - apply (proj1 (proj2 (proj2 (@buffered_failures
                           {| message := u "Hi"; stream := Some false |}
                           {| post := Responded 200
                                        (q "{'message':{'role':'assistant'}}");
                              aiter_bytes := [] |}
                           (World fresh None 0) eq_refl)))
                 (q "{'message':{'role':'assistant'}}")
                 [(u "message", VDict [(u "role", VStr (u "assistant"))])]).
    + reflexivity.
    + vm_compute. reflexivity.
    + right. exists [(u "role", VStr (u "assistant"))].
      split; reflexivity.
  - apply (proj2 (proj2 (proj2 (@buffered_failures
                           {| message := u "Hi"; stream := Some false |}
                           {| post := Responded 200
                                (q "{'message':{'content':'Hello there!'}}");
                              aiter_bytes := [] |}
                           (World (map of_turn Storage.surrogate_conversation)
                                  None 0) eq_refl)))
                 (q "{'message':{'content':'Hello there!'}}")
                 [(u "message",
                   VDict [(u "content", VStr (u "Hello there!"))])]
                 [(u "content", VStr (u "Hello there!"))]
                 (VStr (u "Hello there!"))).
    + reflexivity.
    + vm_compute. reflexivity.
    + reflexivity.
    + reflexivity.
    + reflexivity.
    + vm_compute. reflexivity.
Defined.

(** X6.  A committed buffered reply survives a restart: from a history of
    turns headed by a system turn, with a message and a string reply that
    utf-8 encodes like the texts of the history (no lone surrogate), a 200
    response is answered with {response: reply}, the history is the old
    turns, the user turn and the assistant turn, and the import of the
    module from the file just written restores exactly that history. *)
Theorem committed_reply_survives_restart (c : list Turn)
  (request : ChatRequest) (ollama : backend) (w : world) (text reply : str)
  (d m : list (str * value)) :
  well_formed c ->
  Storage.encodable_turns c ->
  encodable (message request) = true ->
  encodable reply = true ->
  conversation_history w = map of_turn c ->
  wants_stream request = false ->
  post ollama = Responded 200 text ->
  loads text = Return (VDict d) ->
  lookup (u "message") d = Some (VDict m) ->
  lookup (u "content") m = Some (VStr reply) ->
  fst (Storage.chat request ollama w)
  = Return (JSONBody (VDict [(u "response", VStr reply)]))
  /\ conversation_history (snd (Storage.chat request ollama w))
     = map of_turn (c ++ [ {| turn_role := user;
                              turn_content := message request |};
                           {| turn_role := assistant;
                              turn_content := reply |} ])
  /\ startup (chatlog (snd (Storage.chat request ollama w)))
     = (Return tt,
        World (conversation_history (snd (Storage.chat request ollama w)))
              (chatlog (snd (Storage.chat request ollama w))) 0).
Proof.
  intros Hwf Henc Hmsg Hrep Hh Hs Hp Hl Hm Hc.
  rewrite (StorageFacts.chat_200_writes request ollama w Hs Hp Hl Hm Hc).
  rewrite Hh.
  change [turn (u "user") (VStr (message request));
          turn (u "assistant") (VStr reply)]
    with (map of_turn [ {| turn_role := user;
                           turn_content := message request |};
                        {| turn_role := assistant;
                           turn_content := reply |} ]).
  rewrite <- map_app.
  rewrite StorageFacts.turns_storable
    by (apply StorageFacts.encodable_turns_app;
        [exact Henc | repeat constructor; assumption]).
  unfold committed. cbn [fst snd conversation_history chatlog]. rewrite Hh.
  change [turn (u "user") (VStr (message request));
          turn (u "assistant") (VStr reply)]
    with (map of_turn [ {| turn_role := user;
                           turn_content := message request |};
                        {| turn_role := assistant;
                           turn_content := reply |} ]).
  rewrite <- map_app.
  split; [reflexivity | split; [reflexivity |]].
  apply Restart.startup_dump_turns, Exchange.well_formed_app, Hwf.
Qed.

Lemma committed_reply_survives_restart_witness :
  let after :=
    Storage.chat {| message := u "Hi"; stream := Some false |}
                 {| post := Responded 200
                              (q "{'message':{'content':'Hello there!'}}");
                    aiter_bytes := [] |}
                 (World (map of_turn sample_conversation) None 0) in
  fst after = Return (JSONBody (VDict [(u "response",
                                        VStr (u "Hello there!"))]))
  /\ conversation_history (snd after)
     = map of_turn (sample_conversation
                    ++ [ {| turn_role := user; turn_content := u "Hi" |};
                         {| turn_role := assistant;
                            turn_content := u "Hello there!" |} ])
  /\ startup (chatlog (snd after))
     = (Return tt,
        World (conversation_history (snd after)) (chatlog (snd after)) 0).
Proof.
  apply (@committed_reply_survives_restart sample_conversation
           {| message := u "Hi"; stream := Some false |}
           {| post := Responded 200
                        (q "{'message':{'content':'Hello there!'}}");
              aiter_bytes := [] |}
           (World (map of_turn sample_conversation) None 0)
           (q "{'message':{'content':'Hello there!'}}") (u "Hello there!")
           [(u "message", VDict [(u "content", VStr (u "Hello there!"))])]
           [(u "content", VStr (u "Hello there!"))]);
    try reflexivity.
  repeat constructor.
Defined.

(** X8.  A streamed exchange as a whole.  The call itself only appends the
    user turn and hands out the generator over the chunks of the backend,
    writing nothing.  When the generator then runs to the end of the chunks
    with a non-empty reply, and utf-8 encodes the text of the history that
    results, the world is the one a buffered call leaves for the same reply:
    both turns appended, the file written from them. *)
Theorem streamed_exchange (request : ChatRequest) (ollama : backend)
  (w : world) :
  wants_stream request = true ->
  Storage.chat request ollama w
  = (Return (StreamingResponse
               (Storage.stream_generator (aiter_bytes ollama))),
     user_turn_only w (message request))
  /\ forall yielded full,
       relay (aiter_bytes ollama) [] = (yielded, Return full) ->
       full <> [] ->
       Storage.storable
         (conversation_history w
          ++ [turn (u "user") (VStr (message request));
              turn (u "assistant") (VStr full)]) = true ->
       Storage.stream_generator (aiter_bytes ollama)
                                (user_turn_only w (message request))
       = (yielded, Return tt, committed w (message request) (VStr full)).
Proof.
  intros Hs. split.
  - unfold Storage.chat, seq, append_history, ret, user_turn_only.
    rewrite Hs. reflexivity.
  - intros yielded full H Hne E.
    rewrite (StorageFacts.stream_generator_writes
               (aiter_bytes ollama) (user_turn_only w (message request))
               H Hne).
    unfold user_turn_only, stream_committed, committed.
    cbn [conversation_history chatlog writes].
    rewrite <- !app_assoc. cbn [app]. rewrite E. reflexivity.
Qed.

Lemma streamed_exchange_witness :
  Storage.chat {| message := u "Hi stream"; stream := Some true |}
               {| post := TimedOut; aiter_bytes := hello_world |}
               (World fresh None 0)
  = (Return (StreamingResponse (Storage.stream_generator hello_world)),
     user_turn_only (World fresh None 0) (u "Hi stream"))
  /\ Storage.stream_generator hello_world
       (user_turn_only (World fresh None 0) (u "Hi stream"))
     = (decoded hello_world, Return tt,
        committed (World fresh None 0) (u "Hi stream")
                  (VStr (u "Hello World"))).
Proof.
  destruct (@streamed_exchange
              {| message := u "Hi stream"; stream := Some true |}
              {| post := TimedOut; aiter_bytes := hello_world |}
              (World fresh None 0) eq_refl) as [A B].
  split; [exact A |].
  apply (B (decoded hello_world) (u "Hello World")).
  - vm_compute. reflexivity.
  - discriminate.
  - vm_compute. reflexivity.
Defined.

(** X9.  A committed streamed reply survives a restart: from a history of
    turns headed by a system turn, after the streamed call and a run of its
    generator to the end of the chunks with a non-empty reply, the message
    and the reply being text that utf-8 encodes like the texts of the
    history, the generator returns, the history is the old turns, the user
    turn and the assistant turn, and the import of the module from the file
    restores exactly that history. *)
Theorem streamed_reply_survives_restart (c : list Turn)
  (request : ChatRequest) (ollama : backend) (w : world)
  (yielded : list str) (full : str) :
  well_formed c ->
  Storage.encodable_turns c ->
  encodable (message request) = true ->
  encodable full = true ->
  conversation_history w = map of_turn c ->
  wants_stream request = true ->
  relay (aiter_bytes ollama) [] = (yielded, Return full) ->
  full <> [] ->
  let after :=
    Storage.stream_generator (aiter_bytes ollama)
                             (snd (Storage.chat request ollama w)) in
  fst after = (yielded, Return tt)
  /\ conversation_history (snd after)
     = map of_turn (c ++ [ {| turn_role := user;
                              turn_content := message request |};
                           {| turn_role := assistant;
                              turn_content := full |} ])
  /\ startup (chatlog (snd after))
     = (Return tt,
        World (conversation_history (snd after)) (chatlog (snd after)) 0).
Proof.
  intros Hwf Henc Hmsg Hfull Hh Hs H Hne after. subst after.
  assert (E : snd (Storage.chat request ollama w)
              = user_turn_only w (message request)).
  { unfold Storage.chat, seq, append_history, ret, user_turn_only.
    rewrite Hs. reflexivity. }
  rewrite E.
  rewrite (StorageFacts.stream_generator_writes
             (aiter_bytes ollama) (user_turn_only w (message request))
             H Hne).
  unfold user_turn_only, stream_committed.
  cbn [conversation_history chatlog writes]. rewrite Hh.
  rewrite <- !app_assoc. cbn [app].
  change [turn (u "user") (VStr (message request));
          turn (u "assistant") (VStr full)]
    with (map of_turn [ {| turn_role := user;
                           turn_content := message request |};
                        {| turn_role := assistant;
                           turn_content := full |} ]).
  rewrite <- map_app.
  rewrite StorageFacts.turns_storable
    by (apply StorageFacts.encodable_turns_app;
        [exact Henc | repeat constructor; assumption]).
  cbn [fst snd conversation_history chatlog].
  split; [reflexivity | split; [reflexivity |]].
  apply Restart.startup_dump_turns, Exchange.well_formed_app, Hwf.
Qed.

Lemma streamed_reply_survives_restart_witness :
  let after :=
    Storage.stream_generator hello_world
      (snd (Storage.chat {| message := u "Hi stream"; stream := Some true |}
                         {| post := TimedOut; aiter_bytes := hello_world |}
                         (World (map of_turn sample_conversation) None 0))) in
  fst after = (decoded hello_world, Return tt)
  /\ conversation_history (snd after)
     = map of_turn (sample_conversation
                    ++ [ {| turn_role := user;
                            turn_content := u "Hi stream" |};
                         {| turn_role := assistant;
                            turn_content := u "Hello World" |} ])
  /\ startup (chatlog (snd after))
     = (Return tt,
        World (conversation_history (snd after)) (chatlog (snd after)) 0).
Proof.
  apply (@streamed_reply_survives_restart sample_conversation
           {| message := u "Hi stream"; stream := Some true |}
           {| post := TimedOut; aiter_bytes := hello_world |}
           (World (map of_turn sample_conversation) None 0)
           (decoded hello_world) (u "Hello World")).
  - reflexivity.
  - repeat constructor.
  - reflexivity.
  - reflexivity.
  - reflexivity.
  - reflexivity.
  - vm_compute. reflexivity.
  - discriminate.
Defined.

(** X18.  A write leaves the file in agreement with the history in memory
    when it returns, and only then.  [save_history_to_file] that returns
    has written the text of the history, at the price of one write; one
    that raises UnicodeEncodeError has left the file short of that text and
    the history as it was.  So the file agrees with the memory whenever a
    commit returns: after a buffered call that answers {response: reply},
    and after a generator that returns having appended a turn. *)
Theorem commits_leave_in_sync (w : world) :
  (forall w', Storage.save_history_to_file w = (Return tt, w') ->
     in_sync w' /\ writes w' = S (writes w)
     /\ conversation_history w' = conversation_history w)
  /\ (forall w',
        Storage.save_history_to_file w = (Raise UnicodeEncodeError, w') ->
        ~ in_sync w' /\ writes w' = writes w
        /\ conversation_history w' = conversation_history w)
  /\ (forall request ollama reply w',
        wants_stream request = false ->
        Storage.chat request ollama w
        = (Return (JSONBody (VDict [(u "response", reply)])), w') ->
        in_sync w' /\ writes w' = S (writes w))
  /\ (forall chunks yielded w',
        Storage.stream_generator chunks w = (yielded, Return tt, w') ->
        w' = w \/ (in_sync w' /\ writes w' = S (writes w))).
Proof.
  assert (A : forall w0 w', Storage.save_history_to_file w0 = (Return tt, w') ->
                in_sync w' /\ writes w' = S (writes w0)
                /\ conversation_history w' = conversation_history w0).
  { intros w0 w' H.
    destruct (Storage.storable (conversation_history w0)) eqn:E.
    - rewrite (StorageFacts.save_storable w0 E) in H.
      inversion H; subst. repeat split.
    - rewrite (StorageFacts.save_unstorable w0 E) in H. discriminate H. }
  split; [apply A | split; [| split]].
  - intros w' H. unfold Storage.save_history_to_file in H.
    destruct (Storage.write_chunks _ _) as [[[] | e0] text] eqn:W;
      inversion H; subst.
    split; [| split; reflexivity].
    unfold in_sync. cbn [chatlog conversation_history]. intros S.
    apply StorageFacts.write_chunks_short in W. cbn [app] in W.
    rewrite StorageFacts.concat_iterencode in W.
    inversion S as [S']. unfold dump in S'. rewrite S' in W. lia.
  - intros request ollama reply w' Hs.
    unfold Storage.chat, seq, append_history, lift, ret, raise.
    rewrite Hs. destruct (post ollama) as [| s text]; [discriminate |].
    destruct (s =? 200)%Z; [| intros H; inversion H].
    destruct (loads text) as [v | e]; [| discriminate].
    destruct (getitem v (u "message")) as [m | e]; [| discriminate].
    destruct (getitem m (u "content")) as [c | e]; [| discriminate].
    destruct (Storage.save_history_to_file _) as [[[] | e] w1] eqn:S;
      [| discriminate].
    intros H; inversion H; subst.
    destruct (A _ _ S) as [A1 [A2 _]]. split; [exact A1 | exact A2].
  - intros chunks yielded w'. unfold Storage.stream_generator.
    destruct (relay chunks []) as [ys [full | e]]; [| discriminate].
    destruct (nonempty full); [| intros H; inversion H; left; reflexivity].
    unfold seq, append_history.
    destruct (Storage.save_history_to_file _) as [[[] | e] w1] eqn:S;
      [| discriminate].
    intros H; inversion H; subst. right.
    destruct (A _ _ S) as [A1 [A2 _]]. split; [exact A1 | exact A2].
Qed.

Lemma commits_leave_in_sync_witness :
  (in_sync (snd (Storage.save_history_to_file
                   (World (map of_turn sample_conversation) None 0)))
   /\ writes (snd (Storage.save_history_to_file
                     (World (map of_turn sample_conversation) None 0)))
      = 1%nat
   /\ conversation_history
        (snd (Storage.save_history_to_file
                (World (map of_turn sample_conversation) None 0)))
      = map of_turn sample_conversation)
  /\ (~ in_sync (snd (Storage.save_history_to_file
                        (World (map of_turn Storage.surrogate_conversation)
                               None 0)))
      /\ writes (snd (Storage.save_history_to_file
                        (World (map of_turn Storage.surrogate_conversation)
                               None 0)))
         = 0%nat
      /\ conversation_history
           (snd (Storage.save_history_to_file
                   (World (map of_turn Storage.surrogate_conversation)
                          None 0)))
         = map of_turn Storage.surrogate_conversation).
Proof.
  split.
  - apply (proj1 (commits_leave_in_sync
                    (World (map of_turn sample_conversation) None 0))).
    vm_compute. reflexivity.
  - apply (proj1 (proj2 (commits_leave_in_sync
                    (World (map of_turn Storage.surrogate_conversation)
                           None 0)))).
    vm_compute. reflexivity.
Defined.

(** X4.  A buffered call leaves one of three worlds.  The user turn and
    nothing more, the file untouched: then, if it returned at all, it
    returned the error payload of a status other than 200.  Both turns and
    the file written from them: then it returned {response: reply}.  Both
    turns and no completed write: then it raised.  So a reply is never
    returned without its turn in the file. *)
Theorem buffered_all_or_nothing (request : ChatRequest) (ollama : backend)
  (w w' : world) (r : result response) :
  wants_stream request = false ->
  Storage.chat request ollama w = (r, w') ->
  (w' = user_turn_only w (message request)
   /\ forall body,
        r = Return (JSONBody body) ->
        exists s text,
          post ollama = Responded s text /\ s <> 200
          /\ body = VDict [(u "error",
                            VStr (u "Error " ++ int_repr s ++ u ": " ++ text))])
  \/ exists reply,
       conversation_history w'
       = conversation_history w
         ++ [turn (u "user") (VStr (message request));
             turn (u "assistant") reply]
       /\ ((r = Return (JSONBody (VDict [(u "response", reply)]))
            /\ w' = committed w (message request) reply)
           \/ (exists e, r = Raise e /\ writes w' = writes w)).
Proof.
  intros Hs.
  unfold Storage.chat, seq, append_history, lift, ret, raise.
  rewrite Hs.
  destruct (post ollama) as [| s text] eqn:Hp.
  - intros H; inversion H; subst. left. split; [reflexivity | discriminate].
  - destruct (Z.eqb_spec s 200) as [-> | Hne].
    + destruct (loads text) as [v | e];
        [| intros H; inversion H; subst; left;
           split; [reflexivity | discriminate]].
      destruct (getitem v (u "message")) as [m | e];
        [| intros H; inversion H; subst; left;
           split; [reflexivity | discriminate]].
      destruct (getitem m (u "content")) as [c | e];
        [| intros H; inversion H; subst; left;
           split; [reflexivity | discriminate]].
      cbn [conversation_history chatlog writes].
      rewrite <- app_assoc. cbn [app].
      set (h := conversation_history w
                ++ [turn (u "user") (VStr (message request));
                    turn (u "assistant") c]).
      destruct (Storage.storable h) eqn:E.
      * rewrite StorageFacts.save_storable by exact E.
        intros H; inversion H; subst. right. exists c.
        split; [reflexivity |]. left. split; reflexivity.
      * rewrite StorageFacts.save_unstorable by exact E.
        intros H; inversion H; subst. right. exists c.
        split; [reflexivity |]. right. exists UnicodeEncodeError.
        split; reflexivity.
    + intros H; inversion H; subst. left. split; [reflexivity |].
      intros body B. inversion B; subst. exists s, text. auto.
Qed.

Lemma buffered_all_or_nothing_witness :
  let after :=
    Storage.chat
      {| message := u "Hi"; stream := None |}
      {| post := Responded 200 (q "{'message':{'content':'Hello there!'}}");
         aiter_bytes := [] |}
      (World (map of_turn Storage.surrogate_conversation) None 0) in
  (snd after
   = user_turn_only
       (World (map of_turn Storage.surrogate_conversation) None 0) (u "Hi")
   /\ forall body,
        fst after = Return (JSONBody body) ->
        exists s text,
          Responded 200 (q "{'message':{'content':'Hello there!'}}")
          = Responded s text
          /\ s <> 200
          /\ body = VDict [(u "error",
                            VStr (u "Error " ++ int_repr s ++ u ": " ++ text))])
  \/ exists reply,
       conversation_history (snd after)
       = map of_turn Storage.surrogate_conversation
         ++ [turn (u "user") (VStr (u "Hi")); turn (u "assistant") reply]
       /\ ((fst after = Return (JSONBody (VDict [(u "response", reply)]))
            /\ snd after
               = committed
                   (World (map of_turn Storage.surrogate_conversation) None 0)
                   (u "Hi") reply)
           \/ (exists e, fst after = Raise e /\ writes (snd after) = 0%nat)).
Proof.
  apply (@buffered_all_or_nothing
           {| message := u "Hi"; stream := None |}
           {| post := Responded 200
                        (q "{'message':{'content':'Hello there!'}}");
              aiter_bytes := [] |}
           (World (map of_turn Storage.surrogate_conversation) None 0) _ _).
  - reflexivity.
  - apply surjective_pairing.
Defined.

(** X10.  A run of a stream generator leaves the world as it found it,
    whatever the loop had accumulated, unless the loop reached the end of
    the chunks with a non-empty reply.  Then the assistant turn is appended,
    and either the generator returns, the file written from the history, or
    it raises, without a completed write. *)
Theorem stream_run_outcomes (chunks : list bytes) (w w' : world)
  (yielded : list str) (r : result unit) :
  Storage.stream_generator chunks w = (yielded, r, w') ->
  w' = w
  \/ exists full,
       relay chunks [] = (yielded, Return full) /\ full <> []
       /\ conversation_history w'
          = conversation_history w ++ [turn (u "assistant") (VStr full)]
       /\ ((r = Return tt /\ w' = stream_committed w full)
           \/ (exists e, r = Raise e /\ writes w' = writes w)).
Proof.
  unfold Storage.stream_generator.
  destruct (relay chunks []) as [ys [full | e1]] eqn:Hr;
    [| intros H; inversion H; left; reflexivity].
  destruct full as [| ch full];
    [intros H; inversion H; left; reflexivity |].
  cbn [nonempty]. cbv iota. unfold seq, append_history.
  cbn [conversation_history chatlog writes].
  set (h := conversation_history w
            ++ [turn (u "assistant") (VStr (ch :: full))]).
  destruct (Storage.storable h) eqn:E.
  - rewrite StorageFacts.save_storable by exact E.
    intros H; inversion H; subst. right. exists (ch :: full).
    split; [reflexivity |]. split; [discriminate |].
    split; [reflexivity |]. left. split; reflexivity.
  - rewrite StorageFacts.save_unstorable by exact E.
    intros H; inversion H; subst. right. exists (ch :: full).
    split; [reflexivity |]. split; [discriminate |].
    split; [reflexivity |]. right. exists UnicodeEncodeError.
    split; reflexivity.
Qed.

Lemma stream_run_outcomes_witness :
  let chunks := [qb "{'message':{'content':'Hi'}}" ++ [x0a];
                 qb "[1]" ++ [x0a]] in
  let w := World (fresh ++ [turn (u "user") (VStr (u "Hi"))]) None 0 in
  snd (Storage.stream_generator chunks w) = w
  \/ exists full,
       relay chunks [] = (fst (fst (Storage.stream_generator chunks w)),
                          Return full)
       /\ full <> []
       /\ conversation_history (snd (Storage.stream_generator chunks w))
          = conversation_history w ++ [turn (u "assistant") (VStr full)]
       /\ ((snd (fst (Storage.stream_generator chunks w)) = Return tt
            /\ snd (Storage.stream_generator chunks w)
               = stream_committed w full)
           \/ (exists e,
                 snd (fst (Storage.stream_generator chunks w)) = Raise e
                 /\ writes (snd (Storage.stream_generator chunks w))
                    = writes w)).
Proof.
  intros chunks w.
  apply (@stream_run_outcomes chunks w _ _ _).
  destruct (Storage.stream_generator chunks w) as [[ys r] w'].
  reflexivity.
Defined.

End Persistence.
